(** * A same-host web crawler: visit bookkeeping and page extraction

    A shallow embedding of [src/crawl.ts]: URL normalisation, the DOM queries
    behind title / first paragraph / link / image extraction, the fetcher
    [getHTML] and the recursive crawl engine [crawlPage].

    The platform objects the program calls into (the [URL] class, the JSDOM
    parser, [fetch]) are parameters of the development; a model of the URL
    class for a fragment of the URL standard is given in [Whatwg] and is used
    wherever a statement is about concrete URL strings. *)

From Stdlib Require Import ZArith Ascii String List DecimalString.
From stdpp Require Import gmap strings list.

Local Open Scope Z_scope.
Set Warnings "-register-all,-clear-no-such-hyp,-inconsistent-scopes".

(** ** JavaScript string primitives

    Strings are sequences of 8-bit code units; the program only inspects
    ASCII delimiters. *)
Module Js.

(** Index clamping of [String.prototype.slice]: a negative index counts
    from the end, and every index is clipped to [0 .. len]. *)
Definition clamp_index (len k : Z) : Z :=
  if k <? 0 then Z.max (len + k) 0 else Z.min k len.

(** [s.slice(start, end)]; [end_ = None] is the omitted argument. *)
Definition slice (s : string) (start : Z) (end_ : option Z) : string :=
  let len := Z.of_nat (String.length s) in
  let from := clamp_index len start in
  let to := match end_ with
            | None => len
            | Some e => clamp_index len e
            end in
  String.substring (Z.to_nat from) (Z.to_nat (Z.max (to - from) 0)) s.

(** [hay.includes(needle)]. *)
Fixpoint includes (hay needle : string) : bool :=
  String.prefix needle hay ||
  match hay with
  | EmptyString => false
  | String _ hay' => includes hay' needle
  end.

(** White space and line terminators stripped by [String.prototype.trim],
    within the 8-bit range: TAB, LF, VT, FF, CR, SP and NBSP. *)
Definition is_white (c : ascii) : bool :=
  match nat_of_ascii c with
  | 9%nat | 10%nat | 11%nat | 12%nat | 13%nat | 32%nat | 160%nat => true
  | _ => false
  end.

Fixpoint trim_start (s : string) : string :=
  match s with
  | EmptyString => EmptyString
  | String c s' => if is_white c then trim_start s' else s
  end.

(** Drops trailing white space: a character is kept when something
    non-white follows it or it is itself non-white. *)
Fixpoint trim_end (s : string) : string :=
  match s with
  | EmptyString => EmptyString
  | String c s' =>
      match trim_end s' with
      | EmptyString => if is_white c then EmptyString else String c EmptyString
      | t => String c t
      end
  end.

Definition trim (s : string) : string := trim_end (trim_start s).

(** JavaScript truthiness of a string: only the empty string is falsy. *)
Definition truthy (s : string) : bool :=
  match s with
  | EmptyString => false
  | String _ _ => true
  end.

End Js.

(** ** The URL object

    The properties of a [URL] instance that the program reads. [href] is what
    [toString()] returns. *)
Record URL : Type := mkURL {
  href : string;
  protocol : string;
  host : string;
  hostname : string;
  port : string;
  pathname : string;
  search : string;
  hash : string
}.

(** The [URL] constructor: [new URL(url)] is [ctor url None] and
    [new URL(ref, base)] is [ctor ref (Some base)]; [None] stands for the
    [TypeError] it throws on an unparseable input. *)
Definition URLConstructor : Type := string -> option string -> option URL.

(** ** A model of the platform's URL class

    The URL standard's basic parser and serialiser, for the fragment the
    crawler meets: [http], [https], [ws], [wss] and [ftp] URLs with a plain
    domain host, an optional port, credentials that are dropped from the
    host, dot-segment removal, and relative references resolved against a
    base; other schemes are kept with their path verbatim. Outside the model:
    percent-encoding, IDNA and numeric hosts, backslashes and [file:] URLs. *)
Module Whatwg.

Local Open Scope nat_scope.

Definition code (c : ascii) : nat := nat_of_ascii c.

Definition is_upper (c : ascii) : bool := (65 <=? code c) && (code c <=? 90).
Definition is_lower (c : ascii) : bool := (97 <=? code c) && (code c <=? 122).
Definition is_alpha (c : ascii) : bool := is_upper c || is_lower c.
Definition is_digit (c : ascii) : bool := (48 <=? code c) && (code c <=? 57).

Definition lower_char (c : ascii) : ascii :=
  if is_upper c then ascii_of_nat (code c + 32) else c.

Fixpoint lower (s : string) : string :=
  match s with
  | EmptyString => EmptyString
  | String c s' => String (lower_char c) (lower s')
  end.

Definition is_one_of (cs : string) (c : ascii) : bool :=
  existsb (Ascii.eqb c) (list_ascii_of_string cs).

Fixpoint all_chars (p : ascii -> bool) (s : string) : bool :=
  match s with
  | EmptyString => true
  | String c s' => p c && all_chars p s'
  end.

Fixpoint keep_chars (p : ascii -> bool) (s : string) : string :=
  match s with
  | EmptyString => EmptyString
  | String c s' => if p c then String c (keep_chars p s') else keep_chars p s'
  end.

(** [break p s]: the longest prefix without a [p]-character, and the rest. *)
Fixpoint break (p : ascii -> bool) (s : string) : string * string :=
  match s with
  | EmptyString => (EmptyString, EmptyString)
  | String c s' =>
      if p c then (EmptyString, s)
      else let '(a, b) := break p s' in (String c a, b)
  end.

Fixpoint drop_while (p : ascii -> bool) (s : string) : string :=
  match s with
  | EmptyString => EmptyString
  | String c s' => if p c then drop_while p s' else s
  end.

Definition tail (s : string) : string :=
  match s with
  | EmptyString => EmptyString
  | String _ s' => s'
  end.

Definition starts_with (c : ascii) (s : string) : bool :=
  match s with
  | String d _ => Ascii.eqb c d
  | EmptyString => false
  end.

(** Leading and trailing C0 controls and spaces are stripped, tabs and
    newlines removed everywhere. *)
Definition is_c0_or_space (c : ascii) : bool := code c <=? 32.

Fixpoint strip_end (s : string) : string :=
  match s with
  | EmptyString => EmptyString
  | String c s' =>
      match strip_end s' with
      | EmptyString =>
          if is_c0_or_space c then EmptyString else String c EmptyString
      | t => String c t
      end
  end.

Definition preprocess (s : string) : string :=
  keep_chars (fun c => negb (is_one_of (String (ascii_of_nat 9)
                                   (String (ascii_of_nat 10)
                                      (String (ascii_of_nat 13) ""))) c))
    (strip_end (drop_while is_c0_or_space s)).

(** The parsed URL record of the standard. *)
Record parts : Type := mkParts {
  p_scheme : string;
  p_host : option string;
  p_port : string;
  p_path : string;
  p_query : option string;
  p_fragment : option string
}.

Definition default_port (scheme : string) : option N :=
  if String.eqb scheme "http" then Some 80%N
  else if String.eqb scheme "https" then Some 443%N
  else if String.eqb scheme "ws" then Some 80%N
  else if String.eqb scheme "wss" then Some 443%N
  else if String.eqb scheme "ftp" then Some 21%N
  else None.

Definition is_special (scheme : string) : bool :=
  match default_port scheme with Some _ => true | None => false end.

(** Scheme start / scheme state: an ASCII letter, then letters, digits,
    [+], [-] or [.], up to a colon. Returns the lowercased scheme and what
    follows the colon. *)
Definition scan_scheme (s : string) : option (string * string) :=
  match s with
  | String c _ =>
      if is_alpha c then
        let '(name, rest) :=
          break (fun d => negb (is_alpha d || is_digit d || is_one_of "+-." d)) s in
        if starts_with ":" rest then Some (lower name, tail rest) else None
      else None
  | EmptyString => None
  end.

Fixpoint split_slash (s : string) : list string :=
  match s with
  | EmptyString => [EmptyString]
  | String c s' =>
      if Ascii.eqb c "/" then EmptyString :: split_slash s'
      else match split_slash s' with
           | x :: xs => String c x :: xs
           | [] => [String c EmptyString]
           end
  end.

(** Path state: [..] shortens the path, [.] is dropped, and either of them
    as the last segment leaves an empty segment. The stack is reversed. *)
Fixpoint dot_segments (stack segs : list string) : list string :=
  match segs with
  | [] => rev stack
  | seg :: rest =>
      let last := match rest with [] => true | _ => false end in
      if String.eqb seg ".." then
        dot_segments (if last then EmptyString :: List.tl stack
                      else List.tl stack) rest
      else if String.eqb seg "." then
        dot_segments (if last then EmptyString :: stack else stack) rest
      else dot_segments (seg :: stack) rest
  end.

Definition serialize_path (segs : list string) : string :=
  String.concat "" (map (fun seg => "/" +:+ seg) segs).

(** Segments of a path that starts with a slash (or is empty). *)
Definition segments (path : string) : list string := split_slash (tail path).

Definition normalize_path (path : string) : string :=
  serialize_path (dot_segments [] (segments path)).

Definition merge_path (base_path ref_path : string) : string :=
  serialize_path
    (dot_segments [] (removelast (segments base_path) ++ split_slash ref_path)).

(** Query and fragment of what follows the path. *)
Definition parse_tail (s : string) : option string * option string :=
  if starts_with "?" s then
    let '(q, r) := break (Ascii.eqb "#") (tail s) in
    (Some q, if starts_with "#" r then Some (tail r) else None)
  else if starts_with "#" s then (None, Some (tail s))
  else (None, None).

Fixpoint has_char (c : ascii) (s : string) : bool :=
  match s with
  | EmptyString => false
  | String d s' => Ascii.eqb c d || has_char c s'
  end.

Fixpoint after_last (c : ascii) (s : string) : string :=
  match s with
  | EmptyString => EmptyString
  | String d s' =>
      if has_char c s' then after_last c s'
      else if Ascii.eqb c d then s' else s
  end.

Definition forbidden_host_char (c : ascii) : bool :=
  (code c <=? 32) || (127 <=? code c) || is_one_of "#/:<>?@[\]^|%" c.

Fixpoint digits_value (acc : N) (s : string) : N :=
  match s with
  | EmptyString => acc
  | String c s' => digits_value (acc * 10 + N.of_nat (code c - 48))%N s'
  end.

(** Port state: decimal digits, at most 65535; the scheme's default port
    is not stored. *)
Definition parse_port (scheme digits : string) : option string :=
  if negb (all_chars is_digit digits) then None
  else if String.eqb digits "" then Some ""
  else
    let n := digits_value 0%N digits in
    if (65535 <? n)%N then None
    else if match default_port scheme with
            | Some d => N.eqb d n
            | None => false
            end then Some ""
    else Some (NilEmpty.string_of_uint (N.to_uint n)).

(** Authority, host, port and path states of a special scheme. *)
Definition parse_authority (scheme s : string) : option parts :=
  let '(auth, rest) := break (is_one_of "/?#") s in
  let hostport := after_last "@" auth in
  let '(h, p) := break (Ascii.eqb ":") hostport in
  if String.eqb h "" || negb (all_chars (fun c => negb (forbidden_host_char c)) h)
  then None
  else
    match parse_port scheme (tail p) with
    | None => None
    | Some prt =>
        let '(path_raw, rest') := break (is_one_of "?#") rest in
        let '(q, f) := parse_tail rest' in
        Some (mkParts scheme (Some (lower h)) prt (normalize_path path_raw) q f)
    end.

(** A scheme that is not special: the path is kept as written. *)
Definition parse_other (scheme s : string) : option parts :=
  let '(body, rest') := break (is_one_of "?#") s in
  let '(q, f) := parse_tail rest' in
  if String.prefix "//" body then
    let '(auth, path) := break (Ascii.eqb "/") (tail (tail body)) in
    Some (mkParts scheme (Some auth) "" path q f)
  else Some (mkParts scheme None "" body q f).

Definition is_slash (c : ascii) : bool := Ascii.eqb c "/".

(** Relative state and its successors, against a parsed base. *)
Definition parse_relative (s : string) (b : parts) : option parts :=
  if String.eqb s "" then
    Some (mkParts (p_scheme b) (p_host b) (p_port b) (p_path b) (p_query b) None)
  else if String.prefix "//" s then
    if is_special (p_scheme b)
    then parse_authority (p_scheme b) (drop_while is_slash s)
    else parse_other (p_scheme b) s
  else
    let '(path_raw, rest') := break (is_one_of "?#") s in
    let '(q, f) := parse_tail rest' in
    if String.eqb path_raw "" then
      if starts_with "?" rest'
      then Some (mkParts (p_scheme b) (p_host b) (p_port b) (p_path b) q f)
      else Some (mkParts (p_scheme b) (p_host b) (p_port b) (p_path b) (p_query b) f)
    else if starts_with "/" path_raw then
      Some (mkParts (p_scheme b) (p_host b) (p_port b) (normalize_path path_raw) q f)
    else
      Some (mkParts (p_scheme b) (p_host b) (p_port b)
              (merge_path (p_path b) path_raw) q f).

(** The basic URL parser. *)
Definition parse (input : string) (base : option parts) : option parts :=
  let s := preprocess input in
  match scan_scheme s with
  | Some (scheme, rest) =>
      if is_special scheme then
        match base with
        | Some b =>
            if String.eqb (p_scheme b) scheme && negb (String.prefix "//" rest)
            then parse_relative rest b
            else parse_authority scheme (drop_while is_slash rest)
        | None => parse_authority scheme (drop_while is_slash rest)
        end
      else parse_other scheme rest
  | None =>
      match base with
      | Some b => parse_relative s b
      | None => None
      end
  end.

Definition get_hostname (p : parts) : string :=
  match p_host p with Some h => h | None => "" end.

Definition get_host (p : parts) : string :=
  if String.eqb (p_port p) "" then get_hostname p
  else get_hostname p +:+ ":" +:+ p_port p.

Definition get_search (p : parts) : string :=
  match p_query p with
  | Some (String c q) => "?" +:+ String c q
  | _ => ""
  end.

Definition get_hash (p : parts) : string :=
  match p_fragment p with
  | Some (String c f) => "#" +:+ String c f
  | _ => ""
  end.

(** The URL serialiser. *)
Definition serialize (p : parts) : string :=
  p_scheme p +:+ ":" +:+
  match p_host p with Some _ => "//" +:+ get_host p | None => "" end +:+
  p_path p +:+
  match p_query p with Some q => "?" +:+ q | None => "" end +:+
  match p_fragment p with Some f => "#" +:+ f | None => "" end.

Definition to_URL (p : parts) : URL :=
  {| href := serialize p;
     protocol := p_scheme p +:+ ":";
     host := get_host p;
     hostname := get_hostname p;
     port := p_port p;
     pathname := p_path p;
     search := get_search p;
     hash := get_hash p |}.

(** [new URL(url)] and [new URL(url, base)]. *)
Definition construct : URLConstructor := fun url base =>
  match base with
  | None => to_URL <$> parse url None
  | Some b =>
      match parse b None with
      | None => None
      | Some bp => to_URL <$> parse url (Some bp)
      end
  end.

End Whatwg.

(** ** The document object model

    What the JSDOM parser hands back, as far as the program queries it:
    a tree of elements (lowercased local name, attributes in source order,
    child nodes), text and comments. A document is the list of its child
    nodes. *)
Module Dom.

Inductive node : Type :=
| Element (localName : string) (attributes : list (string * string))
          (childNodes : list node)
| Text (data : string)
| Comment (data : string).

Definition document : Type := list node.

Definition childNodes_of (n : node) : list node :=
  match n with
  | Element _ _ cs => cs
  | _ => []
  end.

(** The elements of a subtree in tree order (pre-order, depth first),
    the root included. *)
Fixpoint elements (n : node) : list node :=
  match n with
  | Element _ _ cs => n :: flat_map elements cs
  | _ => []
  end.

(** The element descendants of a list of sibling nodes, in tree order. *)
Definition descendants (ns : list node) : list node := flat_map elements ns.

Definition has_name (name : string) (n : node) : bool :=
  match n with
  | Element l _ _ => String.eqb l name
  | _ => false
  end.

(** [scope.querySelectorAll(name)] for a type selector, where [scope] is
    the child list of the document or of an element: the matching
    descendants in tree order. *)
Definition querySelectorAll (name : string) (scope : list node) : list node :=
  List.filter (has_name name) (descendants scope).

(** [scope.querySelector(name)]: the first match, or [null]. *)
Definition querySelector (name : string) (scope : list node) : option node :=
  head (querySelectorAll name scope).

(** [element.textContent]: the data of all text descendants, in order. *)
Fixpoint textContent (n : node) : string :=
  match n with
  | Element _ _ cs => String.concat "" (map textContent cs)
  | Text d => d
  | Comment _ => ""
  end.

Fixpoint assoc (name : string) (attrs : list (string * string)) : option string :=
  match attrs with
  | [] => None
  | (k, v) :: rest => if String.eqb k name then Some v else assoc name rest
  end.

(** [element.getAttribute(name)]: the value, or [null]. *)
Definition getAttribute (n : node) (name : string) : option string :=
  match n with
  | Element _ attrs _ => assoc name attrs
  | _ => None
  end.

End Dom.

(** ** The fetch boundary *)

Record Response : Type := mkResponse {
  status : Z;
  statusText : string;
  content_type : option string;   (* [headers.get("content-type")] *)
  body : string                   (* what [text()] resolves to *)
}.

Inductive FetchResult : Type :=
| NetworkError (message : string)
| Responded (res : Response).

(** What a call evaluates to: a value, or a thrown error. *)
Inductive completion (A : Type) : Type :=
| Return (a : A)
| Throw (message : string).
Arguments Return {A} a.
Arguments Throw {A} message.

(** ** The record of visit counts

    [pages] is a plain JavaScript object used as a map from normalized URL
    to count. The model keeps its own properties. A property the object
    only inherits compares as not greater than 0, like a missing one, and
    assigning to a key creates or updates an own property, except for
    [__proto__]: unless the object already has an own property of that name
    (as after [JSON.parse]), assigning a number to it reaches the inherited
    setter, which ignores it. Counts are JavaScript numbers; the model has
    the integer-valued ones, which are the ones the crawler writes. *)

(** [obj[key] = v], for a number [v]. *)
Definition set_prop (obj : gmap string Z) (key : string) (v : Z) : gmap string Z :=
  match obj !! key with
  | Some _ => <[key := v]> obj
  | None => if String.eqb key "__proto__" then obj else <[key := v]> obj
  end.

(** [n + 1] in double arithmetic, for a positive count [n]: exact below
    2^53; from 2^53 to 2^54 the doubles are the even integers and [n + 1] is
    a tie, which goes to the neighbour with the even significand; from 2^54
    on [n + 1] rounds back to [n]. *)
Definition js_incr (n : Z) : Z :=
  if n <? 2 ^ 53 then n + 1
  else if (n <? 2 ^ 54) && Z.odd (n / 2) then n + 2
  else n.

(** The state a crawl acts on: the [pages] record that every call of the
    chain shares and updates in place, and the requests sent to the network
    so far, oldest first. *)
Record CrawlState : Type := mkState {
  pages : gmap string Z;
  requests : list string
}.

Inductive outcome : Type :=
| Done (st : CrawlState)      (* the promise resolves with [pages] *)
| Thrown (st : CrawlState)    (* the promise rejects *)
| OutOfFuel.                  (* recursive calls nested deeper than allowed *)

(** [for (const x of xs) pages = await f(x, pages)]: sequential, in order;
    a rejection leaves the loop. *)
Fixpoint for_of (f : string -> CrawlState -> outcome) (xs : list string)
    (st : CrawlState) : outcome :=
  match xs with
  | [] => Done st
  | x :: rest =>
      match f x st with
      | Done st' => for_of f rest st'
      | other => other
      end
  end.

Section Crawler.

(** The platform: the [URL] class, the JSDOM parser ([None] when the
    constructor throws) and the network, whose answer may depend on the
    requests it has already received. *)
Variable newURL : URLConstructor.
Variable JSDOM : string -> option Dom.document.
Variable fetch : list string -> string -> FetchResult.

Definition normalizeURL (url : string) : option string :=
  match newURL url None with
  | None => None
  | Some urlObj =>
      let fullPath := host urlObj +:+ pathname urlObj in
      if String.eqb (Js.slice fullPath (-1) None) "/"
      then Some (Js.slice fullPath 0 (Some (-1)))
      else Some fullPath
  end.

Definition getH1FromHTML (html : string) : string :=
  match JSDOM html with
  | None => ""
  | Some doc =>
      let h1 := Dom.querySelector "h1" doc in
      Js.trim (from_option Dom.textContent "" h1)
  end.

Definition getFirstParagraphFromHTML (html : string) : string :=
  match JSDOM html with
  | None => ""
  | Some doc =>
      let main := Dom.querySelector "main" doc in
      let p :=
        match main ≫= (fun m => Dom.querySelector "p" (Dom.childNodes_of m)) with
        | Some e => Some e
        | None => Dom.querySelector "p" doc
        end in
      Js.trim (from_option Dom.textContent "" p)
  end.

(** The callback both extractors pass to [forEach]: skip a missing or
    empty attribute, push the resolved URL, swallow a resolution error. *)
Definition push_resolved (attr baseURL : string) (acc : list string)
    (el : Dom.node) : list string :=
  match Dom.getAttribute el attr with
  | None => acc
  | Some ref =>
      if negb (Js.truthy ref) then acc
      else match newURL ref (Some baseURL) with
           | Some absoluteURL => acc ++ [href absoluteURL]
           | None => acc
           end
  end.

Definition getURLsFromHTML (html baseURL : string) : list string :=
  match JSDOM html with
  | None => []
  | Some doc =>
      let anchors := Dom.querySelectorAll "a" doc in
      fold_left (push_resolved "href" baseURL) anchors []
  end.

Definition getImagesFromHTML (html baseURL : string) : list string :=
  match JSDOM html with
  | None => []
  | Some doc =>
      let images := Dom.querySelectorAll "img" doc in
      fold_left (push_resolved "src" baseURL) images []
  end.

Record ExtractedPageData : Type := mkPageData {
  url : string;
  h1 : string;
  first_paragraph : string;
  outgoing_links : list string;
  image_urls : list string
}.

Definition extractPageData (html pageURL : string) : ExtractedPageData :=
  {| url := pageURL;
     h1 := getH1FromHTML html;
     first_paragraph := getFirstParagraphFromHTML html;
     outgoing_links := getURLsFromHTML html pageURL;
     image_urls := getImagesFromHTML html pageURL |}.

(** [getHTML]: one request to the network, then the status and
    content-type checks. [Return None] is the [undefined] of the two bare
    [return]s. The second component is the request log afterwards. *)
Definition getHTML (log : list string) (url : string)
    : completion (option string) * list string :=
  let log' := log ++ [url] in
  match fetch log url with
  | NetworkError message => (Throw ("Got Network error: " +:+ message), log')
  | Responded res =>
      if 399 <? status res then (Return None, log')
      else
        match content_type res with
        | None => (Return None, log')
        | Some contentType =>
            if negb (Js.truthy contentType)
               || negb (Js.includes contentType "text/html")
            then (Return None, log')
            else (Return (Some (body res)), log')
        end
  end.

(** [pages[key] > 0]: false for a key that is not an own property. *)
Definition seen (pgs : gmap string Z) (key : string) : bool :=
  match pgs !! key with
  | Some n => 0 <? n
  | None => false
  end.

(** [pages[key]++], which the program runs on a positive count. *)
Definition bump (pgs : gmap string Z) (key : string) : gmap string Z :=
  match pgs !! key with
  | Some n => set_prop pgs key (js_incr n)
  | None => pgs
  end.

(** [crawlPage]. [fuel] is the number of recursive calls that may be
    nested inside this one: a recursive call made with no fuel left does not
    return. *)
Fixpoint crawlPage (fuel : nat) (baseURL currentURL : string)
    (st : CrawlState) {struct fuel} : outcome :=
  match newURL currentURL None with
  | None => Thrown st
  | Some currentURLObj =>
      match newURL baseURL None with
      | None => Thrown st
      | Some baseURLObj =>
          if negb (String.eqb (hostname currentURLObj) (hostname baseURLObj))
          then Done st
          else
            match normalizeURL currentURL with
            | None => Thrown st
            | Some normalizedURL =>
                if seen (pages st) normalizedURL
                then Done (mkState (bump (pages st) normalizedURL)
                                   (requests st))
                else
                  let marked := set_prop (pages st) normalizedURL 1 in
                  match getHTML (requests st) currentURL with
                  | (Throw _, log) => Done (mkState marked log)
                  | (Return None, log) => Done (mkState marked log)
                  | (Return (Some result), log) =>
                      if negb (Js.truthy result)
                      then Done (mkState marked log)
                      else
                        let nextURLs := getURLsFromHTML result baseURL in
                        for_of
                          match fuel with
                          | O => fun _ _ => OutOfFuel
                          | S fuel' => crawlPage fuel' baseURL
                          end
                          nextURLs (mkState marked log)
                  end
            end
      end
  end.

(** The entry point: [crawlPage(baseURL)] with the default arguments. *)
Definition crawl (fuel : nat) (baseURL : string) : outcome :=
  crawlPage fuel baseURL baseURL (mkState ∅ []).

End Crawler.

(** ** Notions used to state the properties of a crawl *)

Section Notions.

Variable newURL : URLConstructor.
Variable JSDOM : string -> option Dom.document.
Variable fetch : list string -> string -> FetchResult.

(** [u] is in scope for [baseURL] and has key [key]: both URLs parse, their
    hostnames are equal, and [key] is the normalized form of [u]. *)
Definition in_scope (baseURL u key : string) : Prop :=
  ∃ c b, newURL u None = Some c ∧ newURL baseURL None = Some b ∧
         hostname c = hostname b ∧ normalizeURL newURL u = Some key.

(** The keys of the URLs requested so far. *)
Definition request_keys (st : CrawlState) : list string :=
  omap (normalizeURL newURL) (requests st).

(** Requests and marks go together: every requested key other than
    [__proto__] is marked, and every key of the record is marked, is not
    [__proto__] and has been requested exactly once. *)
Definition one_request_per_key (st : CrawlState) : Prop :=
  (∀ k, k ≠ "__proto__" → k ∈ request_keys st → seen (pages st) k = true) ∧
  (∀ k, k ∈ dom (pages st) →
        k ≠ "__proto__" ∧ seen (pages st) k = true ∧
        count_occ string_dec (request_keys st) k = 1%nat).

(** The keys of [K] not yet marked as visited. *)
Definition unseen (K : gset string) (pgs : gmap string Z) : gset string :=
  filter (fun k => seen pgs k = false) K.

(** [K] contains the key of every in-scope link of every page that the
    fetcher can return for an in-scope URL whose key is in [K]. *)
Definition closed_under_links (baseURL : string) (K : gset string) : Prop :=
  ∀ (log : list string) (u key html : string),
    in_scope baseURL u key → key ∈ K →
    fst (getHTML fetch log u) = Return (Some html) →
    ∀ link key', link ∈ getURLsFromHTML newURL JSDOM html baseURL →
                 in_scope baseURL link key' → key' ∈ K.

(** [k] further calls of [crawlPage] on the same URL, one after the other,
    none of them allowed a recursive call. *)
Definition encounters (baseURL currentURL : string) (k : nat)
    (st : CrawlState) : outcome :=
  Nat.iter k
    (fun o => match o with
              | Done st' => crawlPage newURL JSDOM fetch 0 baseURL currentURL st'
              | other => other
              end)
    (Done st).

End Notions.

(** A property of the state in which a call ends, however it ends. *)
Definition holds_after (P : CrawlState -> Prop) (o : outcome) : Prop :=
  match o with
  | Done st | Thrown st => P st
  | OutOfFuel => True
  end.

(** ** A small site, to run the crawler on

    [https://h.co/] links to [/a] and to another host; [/a] links back to
    the home page, to itself and to a page that answers 404. The parser is
    given by its result on the two bodies. *)
Module Site.

Definition home_doc : Dom.document :=
  [Dom.Element "html" []
     [Dom.Element "body" []
        [Dom.Element "a" [("href", "/a")] [Dom.Text "a"];
         Dom.Element "a" [("href", "https://other.co/x")] [Dom.Text "x"]]]].

Definition a_doc : Dom.document :=
  [Dom.Element "html" []
     [Dom.Element "body" []
        [Dom.Element "a" [("href", "/")] [Dom.Text "home"];
         Dom.Element "a" [("href", "/a/")] [Dom.Text "self"];
         Dom.Element "a" [("href", "/missing")] [Dom.Text "gone"]]]].

Definition home_html : string :=
  "<a href=/a>a</a><a href=https://other.co/x>x</a>".

Definition a_html : string :=
  "<a href=/>home</a><a href=/a/>self</a><a href=/missing>gone</a>".

Definition JSDOM (html : string) : option Dom.document :=
  if String.eqb html home_html then Some home_doc
  else if String.eqb html a_html then Some a_doc
  else Some [].

Definition page (text : string) : FetchResult :=
  Responded (mkResponse 200 "OK" (Some "text/html; charset=utf-8") text).

Definition fetch (log : list string) (u : string) : FetchResult :=
  if String.eqb u "https://h.co" || String.eqb u "https://h.co/" then page home_html
  else if String.eqb u "https://h.co/a" || String.eqb u "https://h.co/a/"
  then page a_html
  else if String.eqb u "https://h.co/missing"
  then Responded (mkResponse 404 "Not Found" (Some "text/html") "gone")
  else NetworkError "getaddrinfo ENOTFOUND".

Definition offline (log : list string) (u : string) : FetchResult :=
  NetworkError "fetch failed".

Definition keys : gset string := {[ "h.co"; "h.co/a"; "h.co/missing" ]}.

(** A host named [__proto__] whose only page links to itself. *)
Definition loop_html : string := "<a href=/>again</a>".

Definition loop_doc : Dom.document :=
  [Dom.Element "html" []
     [Dom.Element "body" []
        [Dom.Element "a" [("href", "/")] [Dom.Text "again"]]]].

Definition loop_JSDOM (html : string) : option Dom.document := Some loop_doc.

Definition loop_fetch (log : list string) (u : string) : FetchResult :=
  page loop_html.

Definition crawlPage := crawlPage Whatwg.construct JSDOM fetch.
Definition crawl := crawl Whatwg.construct JSDOM fetch.

End Site.

(** ** What the specification says, in its own words *)

(** "With at most one trailing slash stripped". *)
Fixpoint strip_trailing_slash (s : string) : string :=
  match s with
  | EmptyString => EmptyString
  | String c EmptyString => if Ascii.eqb c "/" then EmptyString else s
  | String c s' => String c (strip_trailing_slash s')
  end.

(** "The first [p] inside [main] if one exists there, else the first [p]
    anywhere, else the empty string", on a parsed document. *)
Definition first_paragraph_spec (doc : Dom.document) : string :=
  let anywhere :=
    match Dom.querySelector "p" doc with
    | Some p => Js.trim (Dom.textContent p)
    | None => ""
    end in
  match Dom.querySelector "main" doc with
  | Some main =>
      match Dom.querySelector "p" (Dom.childNodes_of main) with
      | Some p => Js.trim (Dom.textContent p)
      | None => anywhere
      end
  | None => anywhere
  end.

(** "Every element's attribute, in document order, resolved against the
    base; elements lacking the attribute are skipped, unresolvable
    references are skipped": [keep] decides which attribute values count as
    present. *)
Definition resolved_refs (newURL : URLConstructor) (keep : string -> bool)
    (attr baseURL : string) (els : list Dom.node) : list string :=
  flat_map
    (fun el =>
       match Dom.getAttribute el attr with
       | Some ref =>
           if keep ref
           then match newURL ref (Some baseURL) with
                | Some u => [href u]
                | None => []
                end
           else []
       | None => []
       end) els.

(** ** Strings *)

Lemma substring_last (c : ascii) (s : string) :
  String.substring (String.length s) 1 (String c s) =
  String.substring (String.length (String c s) - 1) 1 (String c s).
Proof. simpl. by rewrite Nat.sub_0_r. Qed.

Lemma slice_last_char (s : string) :
  Js.slice s (-1) None =
  match s with
  | EmptyString => EmptyString
  | String _ _ => String.substring (String.length s - 1) 1 s
  end.
Proof.
  unfold Js.slice, Js.clamp_index. destruct s as [|c s]; [done|].
  cbn [String.length]. replace (-1 <? 0) with true by done.
  rewrite Z.max_l by lia.
  replace (Z.to_nat (Z.of_nat (S (String.length s)) + -1)) with
    (S (String.length s) - 1)%nat by lia.
  f_equal. lia.
Qed.

Lemma slice_init (s : string) :
  Js.slice s 0 (Some (-1)) = String.substring 0 (String.length s - 1) s.
Proof.
  unfold Js.slice, Js.clamp_index.
  replace (0 <? 0) with false by done. replace (-1 <? 0) with true by done.
  rewrite Z.min_l by lia. f_equal. lia.
Qed.

Lemma strip_by_slices (s : string) :
  (if String.eqb (Js.slice s (-1) None) "/"
   then Js.slice s 0 (Some (-1)) else s) = strip_trailing_slash s.
Proof.
  rewrite slice_last_char, slice_init.
  induction s as [|c s IH]; [done|].
  destruct s as [|d s].
  - cbn. destruct (Ascii.eqb_spec c "/") as [->|Hc]; [done|].
    destruct (String.eqb_spec (String c "") "/") as [Heq|]; [|done].
    by injection Heq.
  - change (strip_trailing_slash (String c (String d s)))
      with (String c (strip_trailing_slash (String d s))).
    rewrite <- IH. cbn [String.length].
    replace (S (S (String.length s)) - 1)%nat with (S (String.length s)) by lia.
    replace (S (String.length s) - 1)%nat with (String.length s) by lia.
    change (String.substring (S (String.length s)) 1 (String c (String d s)))
      with (String.substring (String.length s) 1 (String d s)).
    destruct (String.eqb (String.substring (String.length s) 1 (String d s)) "/");
      [|done].
    done.
Qed.

Lemma strip_trailing_slash_snoc (c : ascii) (s : string) :
  strip_trailing_slash (String c (s +:+ "/")) = String c s.
Proof.
  revert c. induction s as [|d s IH]; intros c; [done|].
  change (String d s +:+ "/") with (String d (s +:+ "/")).
  change (strip_trailing_slash (String c (String d (s +:+ "/"))))
    with (String c (strip_trailing_slash (String d (s +:+ "/")))).
  by rewrite IH.
Qed.

Lemma strip_trailing_slash_app (s : string) :
  strip_trailing_slash (s +:+ "/") = s.
Proof. destruct s as [|c s]; [done|]. apply strip_trailing_slash_snoc. Qed.

Lemma strip_trailing_slash_cases (s : string) :
  strip_trailing_slash s = s ∨ s = strip_trailing_slash s +:+ "/".
Proof.
  induction s as [|c s IH]; [by left|].
  destruct s as [|d s].
  - cbn. destruct (Ascii.eqb_spec c "/") as [->|]; [by right | by left].
  - change (strip_trailing_slash (String c (String d s)))
      with (String c (strip_trailing_slash (String d s))).
    destruct IH as [->|IH]; [by left|].
    right. rewrite IH at 1. done.
Qed.

(** ** URL normalisation *)

Section Normalize.

Variable newURL : URLConstructor.

Lemma normalizeURL_unfold (u : string) :
  normalizeURL newURL u =
  (fun o => strip_trailing_slash (host o +:+ pathname o)) <$> newURL u None.
Proof.
  unfold normalizeURL. destruct (newURL u None) as [o|]; [|done].
  cbn. rewrite <- strip_by_slices.
  by destruct (String.eqb _ "/").
Qed.

Lemma normalizeURL_is_Some (u : string) (o : URL) :
  newURL u None = Some o → ∃ key, normalizeURL newURL u = Some key.
Proof. intros H. rewrite normalizeURL_unfold, H. by eexists. Qed.

End Normalize.

(** C6: [normalizeURL] sends the four spellings of [h.co/p] (scheme [https]
    or [http], with or without a final slash, host in capitals) to
    ["h.co/p"]. Its result is always the URL's host followed by its pathname,
    without the scheme, minus one final slash when there is one: the host is
    lowercased by the URL class while the path keeps its case, and of two
    final slashes one stays. *)
Theorem normalizeURL_host_pathname :
  normalizeURL Whatwg.construct "https://h.co/p" = Some "h.co/p" ∧
  normalizeURL Whatwg.construct "https://h.co/p/" = Some "h.co/p" ∧
  normalizeURL Whatwg.construct "https://H.CO/p" = Some "h.co/p" ∧
  normalizeURL Whatwg.construct "http://h.co/p" = Some "h.co/p" ∧
  normalizeURL Whatwg.construct "https://H.CO/P" = Some "h.co/P" ∧
  normalizeURL Whatwg.construct "https://h.co/p//" = Some "h.co/p/" ∧
  (∀ (ctor : URLConstructor) (u : string),
     normalizeURL ctor u =
     (fun o => strip_trailing_slash (host o +:+ pathname o)) <$> ctor u None) ∧
  (∀ s : string, strip_trailing_slash (s +:+ "/") = s) ∧
  (∀ s : string,
     strip_trailing_slash s = s ∨ s = strip_trailing_slash s +:+ "/").
Proof.
  repeat split; try (vm_compute; reflexivity).
  - apply normalizeURL_unfold.
  - apply strip_trailing_slash_app.
  - apply strip_trailing_slash_cases.
Qed.

(** C7, as stated, fails: two URLs that differ in query string and fragment
    have one and the same key, in which neither the query nor the fragment
    occurs. *)
Lemma normalizeURL_query_not_in_key :
  ¬ (∀ (u1 u2 : string) (o1 o2 : URL),
       Whatwg.construct u1 None = Some o1 →
       Whatwg.construct u2 None = Some o2 →
       search o1 ≠ search o2 ∨ hash o1 ≠ hash o2 →
       normalizeURL Whatwg.construct u1 ≠ normalizeURL Whatwg.construct u2).
Proof.
  intros H.
  refine (H "https://h.co/p?a=1#top" "https://h.co/p?a=2#end" _ _ eq_refl eq_refl _ _).
  - left. vm_compute. discriminate.
  - vm_compute. reflexivity.
Qed.

(** C7, amended: the key is made of host and pathname only, so the query
    string and the fragment are dropped: URLs that agree on host and
    pathname have the same key whatever their query and fragment. *)
Theorem normalizeURL_ignores_query_and_fragment
    (ctor : URLConstructor) (u1 u2 : string) (o1 o2 : URL) :
  ctor u1 None = Some o1 →
  ctor u2 None = Some o2 →
  host o1 = host o2 →
  pathname o1 = pathname o2 →
  normalizeURL ctor u1 = normalizeURL ctor u2.
Proof.
  intros H1 H2 Hh Hp. rewrite !normalizeURL_unfold, H1, H2. cbn.
  by rewrite Hh, Hp.
Qed.

Lemma normalizeURL_ignores_query_and_fragment_witness :
  (search <$> Whatwg.construct "https://h.co/p?a=1#top" None) = Some "?a=1" ∧
  (hash <$> Whatwg.construct "https://h.co/p?a=2#end" None) = Some "#end" ∧
  normalizeURL Whatwg.construct "https://h.co/p?a=1#top" =
  normalizeURL Whatwg.construct "https://h.co/p?a=2#end".
Proof.
  split; [reflexivity|]. split; [reflexivity|].
  eapply (normalizeURL_ignores_query_and_fragment Whatwg.construct
            "https://h.co/p?a=1#top" "https://h.co/p?a=2#end");
    reflexivity.
Defined.

(** ** Page extraction *)

Section Extraction.

Variable newURL : URLConstructor.
Variable JSDOM : string -> option Dom.document.

Lemma fold_push_resolved (attr baseURL : string) (els : list Dom.node)
    (acc : list string) :
  fold_left (push_resolved newURL attr baseURL) els acc =
  acc ++ resolved_refs newURL Js.truthy attr baseURL els.
Proof.
  revert acc. induction els as [|el els IH]; intros acc; cbn.
  - by rewrite app_nil_r.
  - rewrite IH. unfold push_resolved.
    destruct (Dom.getAttribute el attr) as [ref|]; [|done].
    destruct (Js.truthy ref); cbn; [|done].
    destruct (newURL ref (Some baseURL)); cbn; [|done].
    by rewrite <- app_assoc.
Qed.

Lemma resolved_refs_app (keep : string -> bool) (attr baseURL : string)
    (l1 l2 : list Dom.node) :
  resolved_refs newURL keep attr baseURL (l1 ++ l2) =
  resolved_refs newURL keep attr baseURL l1 ++
  resolved_refs newURL keep attr baseURL l2.
Proof. unfold resolved_refs. apply flat_map_app. Qed.

Lemma resolved_refs_skip_empty (attr baseURL : string)
    (l1 l2 : list Dom.node) (el : Dom.node) :
  Dom.getAttribute el attr = Some "" →
  resolved_refs newURL Js.truthy attr baseURL (l1 ++ el :: l2) =
  resolved_refs newURL Js.truthy attr baseURL (l1 ++ l2).
Proof.
  intros H. rewrite !resolved_refs_app. f_equal.
  unfold resolved_refs at 1. cbn. by rewrite H.
Qed.

Lemma getURLsFromHTML_unfold (html baseURL : string) :
  getURLsFromHTML newURL JSDOM html baseURL =
  match JSDOM html with
  | Some doc =>
      resolved_refs newURL Js.truthy "href" baseURL (Dom.querySelectorAll "a" doc)
  | None => []
  end.
Proof.
  unfold getURLsFromHTML. destruct (JSDOM html) as [doc|]; [|done].
  by rewrite fold_push_resolved.
Qed.

Lemma getImagesFromHTML_unfold (html baseURL : string) :
  getImagesFromHTML newURL JSDOM html baseURL =
  match JSDOM html with
  | Some doc =>
      resolved_refs newURL Js.truthy "src" baseURL (Dom.querySelectorAll "img" doc)
  | None => []
  end.
Proof.
  unfold getImagesFromHTML. destruct (JSDOM html) as [doc|]; [|done].
  by rewrite fold_push_resolved.
Qed.

End Extraction.

(** C3: on every input, [getFirstParagraphFromHTML] is the trimmed text of
    the first [p] inside the (first) [main] element when there is a [main]
    with a [p] in it, otherwise of the first [p] of the document, otherwise
    the empty string (also when the parser throws). A [main] without any [p]
    falls through to the document-wide search: the page
    [<p>Outside.</p><main></main>] gives ["Outside."], and a [p] inside
    [main] wins over an earlier one outside. *)
Theorem getFirstParagraphFromHTML_main_then_document :
  (∀ (JSDOM : string -> option Dom.document) (html : string),
     getFirstParagraphFromHTML JSDOM html =
     match JSDOM html with
     | Some doc => first_paragraph_spec doc
     | None => ""
     end) ∧
  (∀ (doc : Dom.document) (main : Dom.node),
     Dom.querySelector "main" doc = Some main →
     Dom.querySelector "p" (Dom.childNodes_of main) = None →
     first_paragraph_spec doc =
     from_option (fun p => Js.trim (Dom.textContent p)) ""
       (Dom.querySelector "p" doc)) ∧
  first_paragraph_spec
    [Dom.Element "html" []
       [Dom.Element "body" []
          [Dom.Element "p" [] [Dom.Text " Outside. "];
           Dom.Element "main" [] [Dom.Text " "]]]] = "Outside." ∧
  first_paragraph_spec
    [Dom.Element "html" []
       [Dom.Element "body" []
          [Dom.Element "p" [] [Dom.Text "Outside paragraph."];
           Dom.Element "main" []
             [Dom.Element "div" [] [Dom.Element "p" [] [Dom.Text "Main paragraph."]];
              Dom.Element "p" [] [Dom.Text "Second."]]]]] = "Main paragraph.".
Proof.
  split; [|split; [|split; reflexivity]].
  - intros JSDOM html. unfold getFirstParagraphFromHTML, first_paragraph_spec.
    destruct (JSDOM html) as [doc|]; [|done].
    destruct (Dom.querySelector "main" doc) as [m|]; cbn.
    + destruct (Dom.querySelector "p" (Dom.childNodes_of m)); [done|].
      by destruct (Dom.querySelector "p" doc).
    + by destruct (Dom.querySelector "p" doc).
  - intros doc main Hm Hp. unfold first_paragraph_spec. rewrite Hm, Hp.
    by destruct (Dom.querySelector "p" doc).
Qed.

(** C5, as stated, fails: an anchor whose [href] is present but empty has the
    attribute and resolves against the base, yet it is not in the result. *)
Lemma getURLsFromHTML_drops_empty_href :
  let doc := [Dom.Element "a" [("href", "")] [Dom.Text "here"]] in
  let JSDOM := fun _ : string => Some doc in
  Dom.getAttribute (Dom.Element "a" [("href", "")] [Dom.Text "here"]) "href"
    = Some "" ∧
  (href <$> Whatwg.construct "" (Some "https://h.co/p")) = Some "https://h.co/p" ∧
  getURLsFromHTML Whatwg.construct JSDOM "<a href>here</a>" "https://h.co/p" = [] ∧
  getURLsFromHTML Whatwg.construct JSDOM "<a href>here</a>" "https://h.co/p" ≠
  resolved_refs Whatwg.construct (fun _ => true) "href" "https://h.co/p"
    (Dom.querySelectorAll "a" doc).
Proof. repeat split. vm_compute. discriminate. Qed.

(** C5, amended: [getURLsFromHTML] returns, in document order, the [href] of
    every [a] element (and [getImagesFromHTML] the [src] of every [img])
    resolved against the base, skipping the elements whose attribute is
    missing or empty and the references that do not resolve; the elements
    after a skipped one are still extracted. A parser failure gives the
    empty list. *)
Theorem getURLsFromHTML_resolved_in_order
    (newURL : URLConstructor) (JSDOM : string -> option Dom.document)
    (html baseURL : string) :
  getURLsFromHTML newURL JSDOM html baseURL =
    match JSDOM html with
    | Some doc =>
        resolved_refs newURL Js.truthy "href" baseURL (Dom.querySelectorAll "a" doc)
    | None => []
    end ∧
  getImagesFromHTML newURL JSDOM html baseURL =
    match JSDOM html with
    | Some doc =>
        resolved_refs newURL Js.truthy "src" baseURL (Dom.querySelectorAll "img" doc)
    | None => []
    end.
Proof.
  split; [apply getURLsFromHTML_unfold | apply getImagesFromHTML_unfold].
Qed.

(** C10: an [a] element whose [href] is the empty string, and an [img] whose
    [src] is the empty string, contribute nothing: the result is the one
    obtained from the remaining elements, whether or not the empty reference
    would resolve. *)
Theorem empty_reference_excluded
    (newURL : URLConstructor) (JSDOM : string -> option Dom.document)
    (html baseURL : string) (doc : Dom.document) (el : Dom.node)
    (before after : list Dom.node) :
  JSDOM html = Some doc →
  (Dom.querySelectorAll "a" doc = before ++ el :: after →
   Dom.getAttribute el "href" = Some "" →
   getURLsFromHTML newURL JSDOM html baseURL =
   resolved_refs newURL Js.truthy "href" baseURL (before ++ after)) ∧
  (Dom.querySelectorAll "img" doc = before ++ el :: after →
   Dom.getAttribute el "src" = Some "" →
   getImagesFromHTML newURL JSDOM html baseURL =
   resolved_refs newURL Js.truthy "src" baseURL (before ++ after)).
Proof.
  intros Hdoc. split; intros Hq Hattr.
  - rewrite getURLsFromHTML_unfold, Hdoc, Hq. by apply resolved_refs_skip_empty.
  - rewrite getImagesFromHTML_unfold, Hdoc, Hq. by apply resolved_refs_skip_empty.
Qed.

Lemma empty_reference_excluded_witness :
  let empty := Dom.Element "a" [("href", "")] [Dom.Text "top"] in
  let other := Dom.Element "a" [("href", "/x")] [Dom.Text "x"] in
  let JSDOM := fun _ : string => Some [empty; other] in
  is_Some (Whatwg.construct "" (Some "https://h.co/p")) ∧
  getURLsFromHTML Whatwg.construct JSDOM "<a href>top</a><a href=/x>x</a>"
    "https://h.co/p" =
  resolved_refs Whatwg.construct Js.truthy "href" "https://h.co/p" ([] ++ [other]).
Proof.
  intros empty other JSDOM. split; [by eexists|].
  exact (proj1 (empty_reference_excluded Whatwg.construct JSDOM
                  "<a href>top</a><a href=/x>x</a>" "https://h.co/p"
                  [empty; other] empty [] [other] eq_refl) eq_refl eq_refl).
Defined.

(** ** The fetcher *)

Section Fetcher.

Variable fetch : list string -> string -> FetchResult.

Lemma getHTML_requests (log : list string) (u : string) :
  snd (getHTML fetch log u) = log ++ [u].
Proof.
  unfold getHTML. destruct (fetch log u) as [m|res]; [done|].
  destruct (399 <? status res); [done|].
  destruct (content_type res) as [ct|]; [|done].
  by destruct (negb (Js.truthy ct) || negb (Js.includes ct "text/html")).
Qed.

Lemma includes_empty_hay (needle : string) :
  Js.includes "" needle = true → needle = "".
Proof. destruct needle; [done|]. cbn. discriminate. Qed.

Lemma getHTML_responded (log : list string) (u : string) (res : Response) :
  fetch log u = Responded res →
  fst (getHTML fetch log u) =
  if decide (400 ≤ status res) then Return None
  else match content_type res with
       | Some ct =>
           if Js.includes ct "text/html" then Return (Some (body res))
           else Return None
       | None => Return None
       end.
Proof.
  intros H. unfold getHTML. rewrite H.
  destruct (Z.ltb_spec 399 (status res)); case_decide; try lia; [done|].
  destruct (content_type res) as [ct|]; [|done].
  destruct ct as [|c ct]; [done|].
  cbn [Js.truthy negb orb].
  by destruct (Js.includes (String c ct) "text/html").
Qed.

End Fetcher.

(** C8: [getHTML] throws exactly when the request itself fails. When the
    network answers, a status of 400 or more, a missing content-type header
    and a content-type without [text/html] each give [undefined], nothing
    thrown; the body text is returned exactly for a status below 400 with a
    content-type that mentions [text/html]. *)
Theorem getHTML_outcomes
    (fetch : list string -> string -> FetchResult) (log : list string)
    (u : string) :
  ((∃ message, fst (getHTML fetch log u) = Throw message) ↔
   (∃ message, fetch log u = NetworkError message)) ∧
  (∀ res, fetch log u = Responded res →
     (400 ≤ status res → fst (getHTML fetch log u) = Return None) ∧
     (content_type res = None → fst (getHTML fetch log u) = Return None) ∧
     (∀ ct, content_type res = Some ct → Js.includes ct "text/html" = false →
        fst (getHTML fetch log u) = Return None) ∧
     (∀ text, fst (getHTML fetch log u) = Return (Some text) ↔
        status res < 400 ∧ text = body res ∧
        ∃ ct, content_type res = Some ct ∧ Js.includes ct "text/html" = true)).
Proof.
  split.
  - split.
    + intros [m Hm]. destruct (fetch log u) as [m'|res] eqn:Hf; [by eexists|].
      rewrite (getHTML_responded _ _ _ _ Hf) in Hm.
      case_decide; [done|].
      destruct (content_type res) as [ct|]; [|done].
      by destruct (Js.includes ct "text/html").
    + intros [m Hm]. unfold getHTML. rewrite Hm. by eexists.
  - intros res Hf. rewrite (getHTML_responded _ _ _ _ Hf).
    repeat split.
    + intros. by case_decide; [|lia].
    + intros ->. by case_decide.
    + intros ct -> ->. by case_decide.
    + case_decide; [done|]. lia.
    + revert H. case_decide; [done|].
      destruct (content_type res) as [ct|]; [|done].
      destruct (Js.includes ct "text/html"); [|done]. congruence.
    + revert H. case_decide; [done|].
      destruct (content_type res) as [ct|] eqn:Hct; [|done].
      destruct (Js.includes ct "text/html") eqn:Hi; [|done]. eauto.
    + intros (Hs & -> & ct & -> & ->). by case_decide; [lia|].
Qed.

(** ** Facts about the record of visit counts *)

Lemma js_incr_small (n : Z) : n < 2 ^ 53 → js_incr n = n + 1.
Proof. intros H. unfold js_incr. by rewrite (proj2 (Z.ltb_lt _ _) H). Qed.

Lemma js_incr_ge (n : Z) : n ≤ js_incr n.
Proof.
  unfold js_incr. destruct (n <? 2 ^ 53); [lia|].
  destruct ((n <? 2 ^ 54) && Z.odd (n / 2)); lia.
Qed.

Lemma set_prop_present (obj : gmap string Z) (key : string) (n v : Z) :
  obj !! key = Some n → set_prop obj key v = <[key := v]> obj.
Proof. unfold set_prop. by intros ->. Qed.

Lemma set_prop_ordinary (obj : gmap string Z) (key : string) (v : Z) :
  key ≠ "__proto__" → set_prop obj key v = <[key := v]> obj.
Proof.
  intros Hk. unfold set_prop. destruct (obj !! key); [done|].
  by destruct (String.eqb_spec key "__proto__").
Qed.

Lemma set_prop_cases (obj : gmap string Z) (key : string) (v : Z) :
  set_prop obj key v = <[key := v]> obj ∨
  (set_prop obj key v = obj ∧ key = "__proto__" ∧ obj !! key = None).
Proof.
  unfold set_prop. destruct (obj !! key); [by left|].
  destruct (String.eqb_spec key "__proto__"); [by right | by left].
Qed.

Lemma set_prop_lookup_ne (obj : gmap string Z) (key k : string) (v : Z) :
  key ≠ k → set_prop obj key v !! k = obj !! k.
Proof.
  intros Hne. destruct (set_prop_cases obj key v) as [-> | [-> _]]; [|done].
  by rewrite lookup_insert_ne.
Qed.

Lemma dom_set_prop (obj : gmap string Z) (key k : string) (v : Z) :
  k ∈ dom (set_prop obj key v) →
  k ∈ dom obj ∨ (k = key ∧ key ≠ "__proto__").
Proof.
  unfold set_prop. destruct (obj !! key) as [n|] eqn:Hn.
  - rewrite dom_insert_L. intros [->%elem_of_singleton|]%elem_of_union; [|auto].
    left. apply elem_of_dom. eauto.
  - destruct (String.eqb_spec key "__proto__"); [auto|].
    rewrite dom_insert_L. intros [->%elem_of_singleton|]%elem_of_union; auto.
Qed.

Lemma seen_lookup (pgs : gmap string Z) (key : string) :
  seen pgs key = true ↔ ∃ n, pgs !! key = Some n ∧ 0 < n.
Proof.
  unfold seen. destruct (pgs !! key) as [n|].
  - rewrite Z.ltb_lt. split; [eauto|]. by intros (m & [= <-] & ?).
  - split; [done|]. by intros (m & ? & _).
Qed.

(** Marking keeps what is marked, and marks every key but an inherited
    [__proto__]. *)
Lemma seen_mark_keeps (pgs : gmap string Z) (key k : string) :
  seen pgs k = true → seen (set_prop pgs key 1) k = true.
Proof.
  intros Hk. destruct (set_prop_cases pgs key 1) as [-> | [-> _]]; [|done].
  unfold seen. destruct (decide (key = k)) as [->|Hne].
  - by rewrite lookup_insert_eq.
  - by rewrite lookup_insert_ne.
Qed.

Lemma seen_mark_self (pgs : gmap string Z) (key : string) :
  key ≠ "__proto__" → seen (set_prop pgs key 1) key = true.
Proof.
  intros Hk. rewrite set_prop_ordinary by done. unfold seen.
  by rewrite lookup_insert_eq.
Qed.

Lemma seen_mark_inv (pgs : gmap string Z) (key k : string) :
  seen (set_prop pgs key 1) k = true → k = key ∨ seen pgs k = true.
Proof.
  destruct (decide (key = k)) as [->|Hne]; [by left|].
  unfold seen. rewrite set_prop_lookup_ne by done. by right.
Qed.

Lemma bump_lookup (pgs : gmap string Z) (key : string) (n : Z) :
  pgs !! key = Some n → bump pgs key = <[key := js_incr n]> pgs.
Proof. unfold bump. intros H. rewrite H. by eapply set_prop_present. Qed.

Lemma seen_bump (pgs : gmap string Z) (key k : string) :
  seen pgs key = true → seen (bump pgs key) k = seen pgs k.
Proof.
  intros (n & Hn & Hpos)%seen_lookup. rewrite (bump_lookup _ _ _ Hn).
  unfold seen. destruct (decide (key = k)) as [<-|Hne].
  - rewrite lookup_insert_eq, Hn. pose proof (js_incr_ge n).
    rewrite (proj2 (Z.ltb_lt 0 n)) by done. apply Z.ltb_lt. lia.
  - by rewrite lookup_insert_ne.
Qed.

Lemma dom_bump (pgs : gmap string Z) (key k : string) :
  k ∈ dom (bump pgs key) ↔ k ∈ dom pgs.
Proof.
  unfold bump. destruct (pgs !! key) as [n|] eqn:Hn; [|done].
  rewrite (set_prop_present _ _ _ _ Hn), dom_insert_L.
  split; [|set_solver].
  intros [->%elem_of_singleton|]%elem_of_union; [|done].
  apply elem_of_dom. by rewrite Hn.
Qed.

Lemma unseen_mark (K : gset string) (pgs : gmap string Z) (key : string) :
  key ∈ K → key ≠ "__proto__" → seen pgs key = false →
  (size (unseen K (set_prop pgs key 1)) < size (unseen K pgs))%nat.
Proof.
  intros HK Hord Hs. apply subset_size. unfold unseen.
  apply strict_spec_alt. split.
  - intros k [Hk ?]%elem_of_filter. apply elem_of_filter. split; [|done].
    destruct (seen pgs k) eqn:E; [|done].
    by rewrite (seen_mark_keeps pgs key k E) in Hk.
  - intros Heq.
    assert (key ∈ filter (fun k => seen pgs k = false) K) as Hin
      by by apply elem_of_filter.
    rewrite <- Heq in Hin. apply elem_of_filter in Hin as [Hin _].
    by rewrite seen_mark_self in Hin.
Qed.

Lemma unseen_mono (K : gset string) (pgs pgs' : gmap string Z) :
  (∀ k, seen pgs k = true → seen pgs' k = true) →
  (size (unseen K pgs') ≤ size (unseen K pgs))%nat.
Proof.
  intros Hm. apply subseteq_size. unfold unseen.
  intros k [Hk ?]%elem_of_filter. apply elem_of_filter. split; [|done].
  destruct (seen pgs k) eqn:E; [|done]. by rewrite (Hm k E) in Hk.
Qed.

Lemma unseen_size (K : gset string) (pgs : gmap string Z) :
  (size (unseen K pgs) ≤ size K)%nat.
Proof.
  apply subseteq_size. unfold unseen. intros k [_ ?]%elem_of_filter. done.
Qed.

(** ** The crawl engine *)

Section CrawlEngine.

Variable newURL : URLConstructor.
Variable JSDOM : string -> option Dom.document.
Variable fetch : list string -> string -> FetchResult.
Variable baseURL : string.

Local Abbreviation crawlPage_ := (crawlPage newURL JSDOM fetch).
Local Abbreviation in_scope_ := (in_scope newURL baseURL).

(** The recursive call as [fuel] allows it. *)
Local Abbreviation call fuel :=
  (match fuel with
   | O => fun _ _ => OutOfFuel
   | S fuel' => crawlPage_ fuel' baseURL
   end).

(** What a first visit goes on to do once the key is marked. *)
Local Abbreviation first_visit fuel u key st :=
  (let marked := mkState (set_prop (pages st) key 1) (requests st ++ [u]) in
   match fst (getHTML fetch (requests st) u) with
   | Return (Some result) =>
       if Js.truthy result
       then for_of (call fuel)
              (getURLsFromHTML newURL JSDOM result baseURL) marked
       else Done marked
   | _ => Done marked
   end).

Lemma crawlPage_in_scope (fuel : nat) (u key : string) (st : CrawlState) :
  in_scope_ u key →
  crawlPage_ fuel baseURL u st =
  if seen (pages st) key
  then Done (mkState (bump (pages st) key) (requests st))
  else first_visit fuel u key st.
Proof.
  intros (c & b & Hc & Hb & Hh & Hk).
  destruct fuel as [|fuel]; cbn [crawlPage];
    rewrite Hc, Hb, Hh, String.eqb_refl, Hk; cbn [negb];
    (destruct (seen (pages st) key); [done|]);
    pose proof (getHTML_requests fetch (requests st) u) as Hlog;
    (destruct (getHTML fetch (requests st) u) as [[[result|]|m] log];
      cbn in Hlog |- *; subst log; [|done..]);
    by destruct (Js.truthy result).
Qed.

Lemma crawlPage_out_of_scope (fuel : nat) (u : string) (c b : URL)
    (st : CrawlState) :
  newURL u None = Some c → newURL baseURL None = Some b →
  hostname c ≠ hostname b →
  crawlPage_ fuel baseURL u st = Done st.
Proof.
  intros Hc Hb Hh.
  destruct fuel; cbn [crawlPage]; rewrite Hc, Hb;
    by destruct (String.eqb_spec (hostname c) (hostname b)).
Qed.

(** A call either rejects at once, or returns at once with the state it was
    given, or is the call of an in-scope URL. *)
Lemma crawlPage_cases (fuel : nat) (u : string) (st : CrawlState) :
  crawlPage_ fuel baseURL u st = Thrown st ∨
  crawlPage_ fuel baseURL u st = Done st ∨
  ∃ key, in_scope_ u key.
Proof.
  destruct (newURL u None) as [c|] eqn:Hc;
    [|left; destruct fuel; cbn; by rewrite Hc].
  destruct (newURL baseURL None) as [b|] eqn:Hb;
    [|left; destruct fuel; cbn; by rewrite Hc, Hb].
  destruct (decide (hostname c = hostname b)) as [Hh|Hh].
  - right; right. destruct (normalizeURL_is_Some newURL u c Hc) as [key Hk].
    exists key, c, b. done.
  - right; left. by eapply crawlPage_out_of_scope.
Qed.

Lemma for_of_preserves (P : CrawlState -> Prop)
    (f : string -> CrawlState -> outcome) (xs : list string) :
  (∀ x st, x ∈ xs → P st → holds_after P (f x st)) →
  ∀ st, P st → holds_after P (for_of f xs st).
Proof.
  induction xs as [|x xs IH]; intros Hf st HP; [done|].
  cbn. pose proof (Hf x st ltac:(left) HP) as Hx.
  destruct (f x st) as [st'| |]; [|done..].
  apply IH; [|done]. intros y st'' Hy. apply Hf. by right.
Qed.

(** Every call keeps a property that the two updates of the state keep:
    counting a further encounter, and marking and requesting a first visit.
    [Q] is a set of keys that the links of the pages fetched do not leave. *)
Lemma crawlPage_preserves_within (Q : string -> Prop) (P : CrawlState -> Prop) :
  (∀ (log : list string) (u key html : string),
     in_scope_ u key → Q key →
     fst (getHTML fetch log u) = Return (Some html) →
     ∀ link key', link ∈ getURLsFromHTML newURL JSDOM html baseURL →
                  in_scope_ link key' → Q key') →
  (∀ st u key, in_scope_ u key → Q key → seen (pages st) key = true → P st →
     P (mkState (bump (pages st) key) (requests st))) →
  (∀ st u key, in_scope_ u key → Q key → seen (pages st) key = false → P st →
     P (mkState (set_prop (pages st) key 1) (requests st ++ [u]))) →
  ∀ fuel u st, (∀ key, in_scope_ u key → Q key) → P st →
               holds_after P (crawlPage_ fuel baseURL u st).
Proof.
  intros Hclosed Hbump Hmark.
  induction fuel as [|fuel IH]; intros u st HQ HP;
    (match goal with
     | |- context [crawlPage newURL JSDOM fetch ?n baseURL u st] =>
         destruct (crawlPage_cases n u st) as [->|[->|[key Hin]]]; [done..|]
     end);
    rewrite (crawlPage_in_scope _ _ _ _ Hin);
    (destruct (seen (pages st) key) eqn:Hseen; [by eapply Hbump; eauto|]);
    pose proof (Hmark st u key Hin (HQ key Hin) Hseen HP) as HP';
    (destruct (fst (getHTML fetch (requests st) u)) as [[result|]|] eqn:Hget;
      [|done..]);
    (destruct (Js.truthy result); [|done]);
    (apply for_of_preserves; [|done]); intros x st' Hx; [done|].
  apply IH. intros key' Hin'.
  exact (Hclosed (requests st) u key result Hin (HQ key Hin) Hget x key' Hx Hin').
Qed.

Lemma crawlPage_preserves (P : CrawlState -> Prop) :
  (∀ st u key, in_scope_ u key → seen (pages st) key = true → P st →
     P (mkState (bump (pages st) key) (requests st))) →
  (∀ st u key, in_scope_ u key → seen (pages st) key = false → P st →
     P (mkState (set_prop (pages st) key 1) (requests st ++ [u]))) →
  ∀ fuel u st, P st → holds_after P (crawlPage_ fuel baseURL u st).
Proof.
  intros Hbump Hmark fuel u st.
  apply (crawlPage_preserves_within (fun _ => True) P); eauto.
Qed.

(** Keys marked as visited stay marked. *)
Lemma crawlPage_seen_mono (fuel : nat) (u : string) (st : CrawlState) :
  holds_after (fun st' => ∀ k, seen (pages st) k = true → seen (pages st') k = true)
    (crawlPage_ fuel baseURL u st).
Proof.
  apply crawlPage_preserves; [| |done].
  - intros st' v key _ Hs H k Hk. cbn. rewrite seen_bump by done. auto.
  - intros st' v key _ Hs H k Hk. cbn. apply seen_mark_keeps. auto.
Qed.

(** The keys of a returned record come from the record passed in or from
    in-scope URLs. *)
Lemma crawlPage_keys_in_scope (fuel : nat) (u : string) (st : CrawlState) :
  holds_after
    (fun st' => ∀ k, k ∈ dom (pages st') →
                     k ∈ dom (pages st) ∨ ∃ v, in_scope_ v k)
    (crawlPage_ fuel baseURL u st).
Proof.
  apply crawlPage_preserves; [| |auto].
  - intros st' v key Hin Hs H k Hk. cbn in Hk. apply H. by eapply dom_bump.
  - intros st' v key Hin Hs H k Hk. cbn in Hk.
    apply dom_set_prop in Hk as [Hk|[-> _]]; [auto|].
    right. by exists v.
Qed.

Lemma request_keys_snoc (st : CrawlState) (pgs : gmap string Z) (u key : string) :
  normalizeURL newURL u = Some key →
  request_keys newURL (mkState pgs (requests st ++ [u])) =
  request_keys newURL st ++ [key].
Proof.
  intros Hk. unfold request_keys. cbn. rewrite omap_app. cbn. by rewrite Hk.
Qed.

Lemma count_occ_snoc (l : list string) (x k : string) :
  count_occ string_dec (l ++ [x]) k =
  (count_occ string_dec l k + if decide (x = k) then 1 else 0)%nat.
Proof.
  rewrite count_occ_app. cbn.
  destruct (string_dec x k), (decide (x = k)); done.
Qed.

Lemma one_request_per_key_start :
  one_request_per_key newURL (mkState ∅ []).
Proof.
  split.
  - intros k _ Hk. by apply elem_of_nil in Hk.
  - intros k Hk. cbn in Hk. by rewrite dom_empty_L in Hk.
Qed.

Lemma crawlPage_one_request_per_key (fuel : nat) (u : string) (st : CrawlState) :
  one_request_per_key newURL st →
  holds_after (one_request_per_key newURL) (crawlPage_ fuel baseURL u st).
Proof.
  apply crawlPage_preserves.
  - intros st' v key Hin Hs (Hreq & Hdom). split.
    + intros k Hk Hin'. cbn. rewrite seen_bump by done. by apply Hreq.
    + intros k Hk. cbn in Hk |- *. apply dom_bump in Hk.
      rewrite seen_bump by done. by apply Hdom.
  - intros st' v key Hin Hs (Hreq & Hdom).
    destruct Hin as (c & b & _ & _ & _ & Hkey).
    unfold one_request_per_key. rewrite (request_keys_snoc _ _ _ _ Hkey).
    cbn [pages]. split.
    + intros k Hk [Hin|Hin]%elem_of_app.
      * apply seen_mark_keeps. by apply Hreq.
      * apply list_elem_of_singleton in Hin as ->. by apply seen_mark_self.
    + intros k Hk. rewrite count_occ_snoc.
      apply dom_set_prop in Hk as [Hk|[-> Hord]].
      * destruct (Hdom k Hk) as (Hord & Hseen & Hcount).
        split; [done|]. split; [by apply seen_mark_keeps|].
        destruct (decide (key = k)) as [->|]; [congruence|lia].
      * split; [done|]. split; [by apply seen_mark_self|].
        assert (count_occ string_dec (request_keys newURL st') key = 0%nat) as ->.
        { apply count_occ_not_In. intros Hin%list_elem_of_In.
          apply Hreq in Hin; [congruence|done]. }
        by rewrite decide_True.
Qed.

(** *** Termination *)

Lemma for_of_fuel_enough (K : gset string) (n : nat)
    (f : string -> CrawlState -> outcome) (xs : list string) :
  (∀ u st, (∀ key, in_scope_ u key → key ∈ K) →
           (size (unseen K (pages st)) ≤ n)%nat →
           f u st ≠ OutOfFuel) →
  (∀ u st, holds_after
             (fun st' => ∀ k, seen (pages st) k = true → seen (pages st') k = true)
             (f u st)) →
  (∀ x key, x ∈ xs → in_scope_ x key → key ∈ K) →
  ∀ st, (size (unseen K (pages st)) ≤ n)%nat → for_of f xs st ≠ OutOfFuel.
Proof.
  intros Hf Hmono. induction xs as [|x xs IHxs]; intros Hxs st Hsz; [done|].
  cbn. pose proof (Hf x st (fun key => Hxs x key ltac:(left)) Hsz) as Hx.
  specialize (Hmono x st).
  destruct (f x st) as [st'| |]; [|done..].
  apply IHxs.
  - intros y key Hy. apply Hxs. by right.
  - cbn in Hmono. pose proof (unseen_mono K _ _ Hmono). lia.
Qed.

(** As many nested calls as there are keys of [K] still unseen are enough. *)
Lemma crawlPage_fuel_enough (K : gset string) :
  "__proto__" ∉ K →
  closed_under_links newURL JSDOM fetch baseURL K →
  ∀ fuel u st, (∀ key, in_scope_ u key → key ∈ K) →
               (size (unseen K (pages st)) ≤ fuel)%nat →
               crawlPage_ fuel baseURL u st ≠ OutOfFuel.
Proof.
  intros Hord Hclosed.
  induction fuel as [|fuel IH]; intros u st Hu Hsz;
    (match goal with
     | |- context [crawlPage newURL JSDOM fetch ?n baseURL u st] =>
         destruct (crawlPage_cases n u st) as [->|[->|[key Hin]]]; [done..|]
     end);
    rewrite (crawlPage_in_scope _ _ _ _ Hin);
    (destruct (seen (pages st) key) eqn:Hseen; [done|]);
    assert (key ≠ "__proto__") as Hkey
      by (intros ->; apply Hord; by apply Hu);
    pose proof (unseen_mark K (pages st) key (Hu key Hin) Hkey Hseen) as Hlt;
    [lia|].
  destruct (fst (getHTML fetch (requests st) u)) as [[result|]|] eqn:Hget;
    [|done..].
  destruct (Js.truthy result); [|done].
  apply (for_of_fuel_enough K fuel); [exact IH|apply crawlPage_seen_mono| |].
  - intros x key' Hx Hin'.
    exact (Hclosed (requests st) u key result Hin (Hu key Hin) Hget x key' Hx Hin').
  - cbn. lia.
Qed.

(** Within a closed set of keys, every request is for a key of the set. *)
Lemma crawlPage_requests_within (K : gset string) :
  closed_under_links newURL JSDOM fetch baseURL K →
  ∀ fuel u st, (∀ key, in_scope_ u key → key ∈ K) →
    Forall (fun v => ∃ k, normalizeURL newURL v = Some k ∧ k ∈ K) (requests st) →
    holds_after
      (fun st' => Forall (fun v => ∃ k, normalizeURL newURL v = Some k ∧ k ∈ K)
                    (requests st'))
      (crawlPage_ fuel baseURL u st).
Proof.
  intros Hclosed.
  apply (crawlPage_preserves_within (fun k => k ∈ K)); [exact Hclosed| |].
  - intros st u key _ _ _ H. exact H.
  - intros st u key Hin HK _ H. cbn. apply Forall_app. split; [done|].
    apply Forall_singleton. destruct Hin as (? & ? & _ & _ & _ & Hk). eauto.
Qed.

Lemma request_keys_bound (K : gset string) (st : CrawlState) :
  NoDup (request_keys newURL st) →
  Forall (fun v => ∃ k, normalizeURL newURL v = Some k ∧ k ∈ K) (requests st) →
  (length (requests st) ≤ size K)%nat.
Proof.
  unfold request_keys. intros Hnd Hall.
  assert (length (omap (normalizeURL newURL) (requests st)) = length (requests st)
          ∧ ∀ k, k ∈ omap (normalizeURL newURL) (requests st) → k ∈ K) as [Hlen Hsub].
  { clear Hnd. induction Hall as [|v vs (k & Hk & HK) _ [IHlen IHsub]].
    - split; [done|]. intros k Hk. by apply elem_of_nil in Hk.
    - cbn. rewrite Hk. cbn. split; [by rewrite IHlen|].
      intros k' [->|Hk']%elem_of_cons; auto. }
  rewrite <- Hlen.
  rewrite <- (size_list_to_set (C := gset string)) by done.
  apply subseteq_size. intros k Hk%elem_of_list_to_set. auto.
Qed.

Lemma encounters_S (currentURL : string) (k : nat) (st : CrawlState) :
  encounters newURL JSDOM fetch baseURL currentURL (S k) st =
  match encounters newURL JSDOM fetch baseURL currentURL k st with
  | Done st' => crawlPage_ 0 baseURL currentURL st'
  | Thrown st' => Thrown st'
  | OutOfFuel => OutOfFuel
  end.
Proof.
  unfold encounters.
  change (Nat.iter (S k) ?f ?x) with (f (Nat.iter k f x)).
  cbv beta. by destruct (Nat.iter k _ (Done st)).
Qed.

End CrawlEngine.

(** C2: when the hostname of [currentURL] differs from that of [baseURL],
    [crawlPage] returns at once with the state it was given: the record has
    no key added or changed, no request is sent, and no recursive call is
    made (none is allowed with fuel 0). A loop over links therefore passes
    over such a link, and every key of a returned record was in the record
    passed in or is the key of a URL on the base host. *)
Theorem crawlPage_other_host_unchanged
    (newURL : URLConstructor) (JSDOM : string -> option Dom.document)
    (fetch : list string -> string -> FetchResult)
    (baseURL currentURL : string) (c b : URL) :
  newURL currentURL None = Some c →
  newURL baseURL None = Some b →
  hostname c ≠ hostname b →
  (∀ fuel st,
     crawlPage newURL JSDOM fetch fuel baseURL currentURL st = Done st) ∧
  (∀ fuel rest st,
     for_of (crawlPage newURL JSDOM fetch fuel baseURL) (currentURL :: rest) st =
     for_of (crawlPage newURL JSDOM fetch fuel baseURL) rest st) ∧
  (∀ fuel u st st',
     crawlPage newURL JSDOM fetch fuel baseURL u st = Done st' →
     ∀ k, k ∈ dom (pages st') →
          k ∈ dom (pages st) ∨ ∃ v, in_scope newURL baseURL v k).
Proof.
  intros Hc Hb Hh. split; [|split].
  - intros fuel st. by eapply crawlPage_out_of_scope.
  - intros fuel rest st. cbn [for_of].
    by rewrite (crawlPage_out_of_scope newURL JSDOM fetch baseURL fuel
                  currentURL c b st Hc Hb Hh).
  - intros fuel u st st' Hrun.
    pose proof (crawlPage_keys_in_scope newURL JSDOM fetch baseURL fuel u st) as H.
    by rewrite Hrun in H.
Qed.

Lemma crawlPage_other_host_unchanged_witness :
  Site.crawlPage 0 "https://h.co" "https://other.co/x"
    (mkState {[ "h.co" := 1 ]} ["https://h.co"]) =
  Done (mkState {[ "h.co" := 1 ]} ["https://h.co"]).
Proof.
  refine (proj1 (crawlPage_other_host_unchanged Whatwg.construct Site.JSDOM
                   Site.fetch "https://h.co" "https://other.co/x"
                   _ _ eq_refl eq_refl _) 0%nat _).
  vm_compute. discriminate.
Defined.

(** C1, as stated, fails: the key of a URL on another host can be in the
    record with a positive count, and the call leaves that count alone. *)
Lemma crawlPage_revisit_other_host :
  ¬ (∀ (baseURL currentURL key : string) (n : Z) (st : CrawlState),
       normalizeURL Whatwg.construct currentURL = Some key →
       pages st !! key = Some n → 0 < n →
       Site.crawlPage 0 baseURL currentURL st =
       Done (mkState (<[key := n + 1]> (pages st)) (requests st))).
Proof.
  intros H.
  specialize (H "https://h.co" "https://other.co/x" "other.co/x" 1
                (mkState {[ "other.co/x" := 1 ]} []) eq_refl eq_refl eq_refl).
  apply (f_equal (fun o => match o with
                           | Done st => pages st !! "other.co/x"
                           | _ => None
                           end)) in H.
  vm_compute in H. discriminate.
Qed.

(** C1, amended: when [currentURL] is on the base host and its key is in the
    record with a positive count, [crawlPage] returns at once, without a
    request and without a recursive call (none is allowed with fuel 0), and
    the only change to the record is the count of that key, which is one
    higher when the count was below 2^53; [k] such encounters add [k] as
    long as the count stays within 2^53. Requests and keys go together
    throughout a crawl: calls keep [one_request_per_key], so that every key
    in the record of a crawl started from the empty record has been
    requested exactly once. *)
Theorem crawlPage_revisit_counts
    (newURL : URLConstructor) (JSDOM : string -> option Dom.document)
    (fetch : list string -> string -> FetchResult)
    (baseURL currentURL key : string) (c b : URL) (n : Z) (st : CrawlState) :
  newURL currentURL None = Some c →
  newURL baseURL None = Some b →
  hostname c = hostname b →
  normalizeURL newURL currentURL = Some key →
  pages st !! key = Some n →
  0 < n →
  (∀ fuel,
     ∃ n', crawlPage newURL JSDOM fetch fuel baseURL currentURL st =
           Done (mkState (<[key := n']> (pages st)) (requests st)) ∧
           (n < 2 ^ 53 → n' = n + 1)) ∧
  (∀ k : nat,
     n + Z.of_nat k ≤ 2 ^ 53 →
     encounters newURL JSDOM fetch baseURL currentURL k st =
     Done (mkState (<[key := n + Z.of_nat k]> (pages st)) (requests st))) ∧
  (∀ fuel u st0,
     one_request_per_key newURL st0 →
     holds_after (one_request_per_key newURL)
       (crawlPage newURL JSDOM fetch fuel baseURL u st0)) ∧
  (∀ fuel,
     holds_after
       (fun st' => ∀ k, k ∈ dom (pages st') →
                        count_occ string_dec (request_keys newURL st') k = 1%nat)
       (crawl newURL JSDOM fetch fuel baseURL)).
Proof.
  intros Hc Hb Hh Hkey Hn Hpos.
  assert (in_scope newURL baseURL currentURL key) as Hin by by exists c, b.
  assert (∀ fuel m pgs log, pgs !! key = Some m → 0 < m →
            crawlPage newURL JSDOM fetch fuel baseURL currentURL (mkState pgs log) =
            Done (mkState (<[key := js_incr m]> pgs) log)) as Hstep.
  { intros fuel m pgs log Hm Hm0.
    rewrite (crawlPage_in_scope _ _ _ _ _ _ _ _ Hin). cbn [pages requests].
    rewrite (proj2 (seen_lookup pgs key)) by eauto.
    by rewrite (bump_lookup _ _ _ Hm). }
  split; [|split; [|split]].
  - intros fuel. exists (js_incr n). split; [|apply js_incr_small].
    destruct st as [pgs log]. by apply Hstep.
  - intros k. induction k as [|k IH]; intros Hk.
    + cbn. rewrite Z.add_0_r, insert_id by done. by destruct st.
    + rewrite encounters_S, IH by lia.
      rewrite (Hstep 0%nat (n + Z.of_nat k)); [|apply lookup_insert_eq|lia].
      rewrite insert_insert_eq, js_incr_small by lia. do 3 f_equal. lia.
  - intros fuel u st0. apply crawlPage_one_request_per_key.
  - intros fuel.
    pose proof (crawlPage_one_request_per_key newURL JSDOM fetch baseURL fuel
                  baseURL (mkState ∅ []) (one_request_per_key_start newURL)) as H.
    unfold crawl.
    destruct (crawlPage newURL JSDOM fetch fuel baseURL baseURL (mkState ∅ []));
      cbn in *; [| |done]; intros k Hk; by apply H.
Qed.

Lemma crawlPage_revisit_counts_witness :
  ∃ n', Site.crawlPage 0 "https://h.co" "https://h.co/a/"
          (mkState {[ "h.co/a" := 1 ]} ["https://h.co/a"]) =
        Done (mkState (<[ "h.co/a" := n' ]> {[ "h.co/a" := 1 ]}) ["https://h.co/a"]) ∧
        (1 < 2 ^ 53 → n' = 1 + 1).
Proof.
  refine (proj1 (crawlPage_revisit_counts Whatwg.construct Site.JSDOM Site.fetch
                   "https://h.co" "https://h.co/a/" "h.co/a" _ _ 1
                   (mkState {[ "h.co/a" := 1 ]} ["https://h.co/a"])
                   eq_refl eq_refl eq_refl eq_refl eq_refl _) 0%nat).
  lia.
Defined.

Section FirstVisit.

Variable newURL : URLConstructor.
Variable JSDOM : string -> option Dom.document.
Variable fetch : list string -> string -> FetchResult.
Variable baseURL : string.

(** What a first visit does, whatever the key. *)
Lemma crawlPage_first_visit (fuel : nat) (u key : string) (st : CrawlState) :
  in_scope newURL baseURL u key →
  seen (pages st) key = false →
  let marked := mkState (set_prop (pages st) key 1) (requests st ++ [u]) in
  (fst (getHTML fetch (requests st) u) = Return None ∨
   (∃ m, fst (getHTML fetch (requests st) u) = Throw m) →
   crawlPage newURL JSDOM fetch fuel baseURL u st = Done marked) ∧
  (∀ html, fst (getHTML fetch (requests st) u) = Return (Some html) →
     crawlPage newURL JSDOM fetch (S fuel) baseURL u st =
     if Js.truthy html
     then for_of (crawlPage newURL JSDOM fetch fuel baseURL)
            (getURLsFromHTML newURL JSDOM html baseURL) marked
     else Done marked).
Proof.
  intros Hin Hseen marked. split.
  - intros Hget. rewrite (crawlPage_in_scope _ _ _ _ _ _ _ _ Hin), Hseen.
    by destruct Hget as [->|[m ->]].
  - intros html Hget.
    by rewrite (crawlPage_in_scope _ _ _ _ _ _ _ _ Hin), Hseen, Hget.
Qed.

(** A call on an in-scope URL leaves its key marked, unless the key is
    [__proto__]. *)
Lemma crawlPage_marks_key (fuel : nat) (u key : string) (st : CrawlState) :
  in_scope newURL baseURL u key →
  key ≠ "__proto__" →
  holds_after (fun st' => seen (pages st') key = true)
    (crawlPage newURL JSDOM fetch fuel baseURL u st).
Proof.
  intros Hin Hord.
  rewrite (crawlPage_in_scope newURL JSDOM fetch baseURL fuel u key st Hin).
  destruct (seen (pages st) key) eqn:Hseen; [cbn; by rewrite seen_bump|].
  pose proof (seen_mark_self (pages st) key Hord) as Hm.
  destruct (fst (getHTML fetch (requests st) u)) as [[html|]|]; [|done..].
  destruct (Js.truthy html); [|done].
  apply for_of_preserves; [|done].
  intros x st' _ Hst'. destruct fuel as [|fuel]; [done|].
  pose proof (crawlPage_seen_mono newURL JSDOM fetch baseURL fuel x st') as Hmono.
  destruct (crawlPage newURL JSDOM fetch fuel baseURL x st'); cbn in *; auto.
Qed.

End FirstVisit.

(** C4 fails on the code for the key [__proto__]: the first visit of
    [https://__proto__] assigns 1 to [pages["__proto__"]], which a plain
    object does not store, so that with the network down the call returns
    the empty record, one request sent and no count of 1 in it. *)
Theorem crawlPage_first_visit_of_proto_host :
  normalizeURL Whatwg.construct "https://__proto__" = Some "__proto__" ∧
  seen ∅ "__proto__" = false ∧
  crawlPage Whatwg.construct Site.JSDOM Site.offline 0
    "https://__proto__" "https://__proto__" (mkState ∅ []) =
  Done (mkState ∅ ["https://__proto__"]).
Proof. repeat split. Qed.

(** C9 fails on the code for the same key: on a host named [__proto__]
    whose page links to itself, the key is never marked, every recursive
    call is a first visit again, and [crawlPage(baseURL)] does not end
    within any depth of recursion, although a single key is reachable. *)
Theorem crawl_of_proto_host_never_ends (fuel : nat) :
  crawl Whatwg.construct Site.loop_JSDOM Site.loop_fetch fuel "https://__proto__" =
  OutOfFuel.
Proof.
  unfold crawl.
  assert (∀ n u log,
            u = "https://__proto__" ∨ u = "https://__proto__/" →
            crawlPage Whatwg.construct Site.loop_JSDOM Site.loop_fetch n
              "https://__proto__" u (mkState ∅ log) = OutOfFuel) as H;
    [|apply H; by left].
  assert (∀ u, u = "https://__proto__" ∨ u = "https://__proto__/" →
               in_scope Whatwg.construct "https://__proto__" u "__proto__") as Hin.
  { intros u [-> | ->]; by eexists _, _. }
  induction n as [|n IH]; intros u log Hu;
    rewrite (crawlPage_in_scope Whatwg.construct Site.loop_JSDOM Site.loop_fetch
               "https://__proto__" _ u "__proto__" _ (Hin u Hu));
    cbn [pages requests]; [done|].
  change (for_of (crawlPage Whatwg.construct Site.loop_JSDOM Site.loop_fetch n
                    "https://__proto__") ["https://__proto__/"]
            (mkState ∅ (log ++ [u])) = OutOfFuel).
  cbn [for_of]. rewrite IH; [done|by right].
Qed.

(** ** The repository's tests, run on the model

    The parser's result on each test page is written out as a tree. *)

Example test_normalizeURL :
  map (normalizeURL Whatwg.construct)
    ["https://blog.boot.dev/path"; "https://blog.boot.dev/path/";
     "https://BLOG.boot.dev/path"; "http://BLOG.boot.dev/path"] =
  [Some "blog.boot.dev/path"; Some "blog.boot.dev/path";
   Some "blog.boot.dev/path"; Some "blog.boot.dev/path"].
Proof. reflexivity. Qed.

Example test_getURLsFromHTML_both :
  let doc :=
    [Dom.Element "html" []
       [Dom.Element "head" [] [];
        Dom.Element "body" []
          [Dom.Element "a" [("href", "/path/one")]
             [Dom.Element "span" [] [Dom.Text "Boot.dev"]];
           Dom.Element "a" [("href", "https://other.com/path/one")]
             [Dom.Element "span" [] [Dom.Text "Boot.dev"]]]]] in
  getURLsFromHTML Whatwg.construct (fun _ => Some doc) "page" "https://blog.boot.dev" =
  ["https://blog.boot.dev/path/one"; "https://other.com/path/one"].
Proof. reflexivity. Qed.

Example test_getURLsFromHTML_absolute :
  let doc :=
    [Dom.Element "html" []
       [Dom.Element "head" [] [];
        Dom.Element "body" []
          [Dom.Element "a" [("href", "https://blog.boot.dev")]
             [Dom.Element "span" [] [Dom.Text "Boot.dev"]]]]] in
  getURLsFromHTML Whatwg.construct (fun _ => Some doc) "page" "https://blog.boot.dev" =
  ["https://blog.boot.dev/"].
Proof. reflexivity. Qed.

Example test_extract_page_data_basic :
  let doc :=
    [Dom.Element "html" []
       [Dom.Element "head" [] [];
        Dom.Element "body" []
          [Dom.Element "h1" [] [Dom.Text "Test Title"];
           Dom.Element "p" [] [Dom.Text "This is the first paragraph."];
           Dom.Element "a" [("href", "/link1")] [Dom.Text "Link 1"];
           Dom.Element "img" [("src", "/image1.jpg"); ("alt", "Image 1")] []]]] in
  extractPageData Whatwg.construct (fun _ => Some doc) "page" "https://blog.boot.dev" =
  {| url := "https://blog.boot.dev";
     h1 := "Test Title";
     first_paragraph := "This is the first paragraph.";
     outgoing_links := ["https://blog.boot.dev/link1"];
     image_urls := ["https://blog.boot.dev/image1.jpg"] |}.
Proof. reflexivity. Qed.

Example test_extract_page_data_main_priority :
  let doc :=
    [Dom.Element "html" []
       [Dom.Element "head" [] [];
        Dom.Element "body" []
          [Dom.Element "nav" [] [Dom.Element "p" [] [Dom.Text "Navigation paragraph"]];
           Dom.Element "main" []
             [Dom.Element "h1" [] [Dom.Text "Main Title"];
              Dom.Element "p" [] [Dom.Text "Main paragraph content."]]]]] in
  let data :=
    extractPageData Whatwg.construct (fun _ => Some doc) "page" "https://blog.boot.dev" in
  h1 data = "Main Title" ∧ first_paragraph data = "Main paragraph content.".
Proof. split; reflexivity. Qed.

Example test_extract_page_data_missing :
  let doc :=
    [Dom.Element "html" []
       [Dom.Element "head" [] [];
        Dom.Element "body" []
          [Dom.Element "div" [] [Dom.Text "No h1, p, links, or images"]]]] in
  extractPageData Whatwg.construct (fun _ => Some doc) "page" "https://blog.boot.dev" =
  {| url := "https://blog.boot.dev";
     h1 := "";
     first_paragraph := "";
     outgoing_links := [];
     image_urls := [] |}.
Proof. reflexivity. Qed.

Example test_crawl_site :
  (fun o => match o with
            | Done st => Some (map_to_list (pages st), requests st)
            | _ => None
            end) (Site.crawl 2 "https://h.co") =
  Some ([("h.co/missing", 1); ("h.co/a", 2); ("h.co", 2)],
        ["https://h.co"; "https://h.co/a"; "https://h.co/missing"]) ∧
  Site.crawl 1 "https://h.co" = OutOfFuel.
Proof. split; vm_compute; reflexivity. Qed.

(** ** Further properties of the extractors *)

Lemma trim_end_idem (s : string) : Js.trim_end (Js.trim_end s) = Js.trim_end s.
Proof.
  induction s as [|c s IH]; [done|].
  cbn [Js.trim_end]. destruct (Js.trim_end s) as [|d r] eqn:Hr.
  - destruct (Js.is_white c) eqn:Hc; [done|]. cbn. by rewrite Hc.
  - change (Js.trim_end (String c (String d r)))
      with (match Js.trim_end (String d r) with
            | EmptyString =>
                if Js.is_white c then EmptyString else String c EmptyString
            | String d' r' => String c (String d' r')
            end).
    by rewrite IH.
Qed.

Lemma trim_start_fix (s : string) :
  Js.trim_start (Js.trim_start s) = Js.trim_start s.
Proof.
  induction s as [|c s IH]; [done|].
  cbn. destruct (Js.is_white c) eqn:Hc; [done|]. cbn. by rewrite Hc.
Qed.

Lemma trim_start_trim_end (s : string) :
  Js.trim_start s = s → Js.trim_start (Js.trim_end s) = Js.trim_end s.
Proof.
  destruct s as [|c s]; [done|]. cbn.
  destruct (Js.is_white c) eqn:Hc.
  - intros H. exfalso.
    assert (∀ t, String.length (Js.trim_start t) ≤ String.length t)%nat as Hlen.
    { induction t as [|d t IHt]; [done|]. cbn. destruct (Js.is_white d); cbn; lia. }
    specialize (Hlen s). rewrite H in Hlen. cbn in Hlen. lia.
  - intros _. destruct (Js.trim_end s); cbn; by rewrite Hc.
Qed.

Lemma trim_fixed (s : string) :
  Js.trim_start (Js.trim s) = Js.trim s ∧ Js.trim_end (Js.trim s) = Js.trim s.
Proof.
  unfold Js.trim. split.
  - apply trim_start_trim_end, trim_start_fix.
  - apply trim_end_idem.
Qed.

Lemma trim_idem (s : string) : Js.trim (Js.trim s) = Js.trim s.
Proof.
  destruct (trim_fixed s) as [Hs He]. unfold Js.trim at 1. by rewrite Hs, He.
Qed.

Lemma head_filter_first {A : Type} (p : A -> bool) (pre post : list A) (e : A) :
  p e = true → Forall (fun x => p x = false) pre →
  head (List.filter p (pre ++ e :: post)) = Some e.
Proof.
  intros He Hpre. induction Hpre as [|x pre Hx _ IH]; cbn.
  - by rewrite He.
  - by rewrite Hx.
Qed.

Lemma filter_none {A : Type} (p : A -> bool) (l : list A) :
  Forall (fun x => p x = false) l → List.filter p l = [].
Proof. induction 1 as [|x l Hx _ IH]; cbn; [done|]. by rewrite Hx. Qed.

Lemma elem_of_querySelectorAll (name : string) (doc : Dom.document) (el : Dom.node) :
  el ∈ Dom.querySelectorAll name doc ↔
  el ∈ Dom.descendants doc ∧ Dom.has_name name el = true.
Proof.
  unfold Dom.querySelectorAll. rewrite !list_elem_of_In. apply filter_In.
Qed.

Lemma elem_of_resolved_refs (newURL : URLConstructor) (attr baseURL u : string)
    (els : list Dom.node) :
  u ∈ resolved_refs newURL Js.truthy attr baseURL els ↔
  ∃ el ref o, el ∈ els ∧ Dom.getAttribute el attr = Some ref ∧ ref ≠ "" ∧
              newURL ref (Some baseURL) = Some o ∧ u = href o.
Proof.
  unfold resolved_refs. rewrite list_elem_of_In, in_flat_map. split.
  - intros (el & Hel & Hu). apply list_elem_of_In in Hel.
    destruct (Dom.getAttribute el attr) as [ref|] eqn:Hattr; [|done].
    destruct ref as [|ch ref]; [done|]. cbn in Hu.
    destruct (newURL _ (Some baseURL)) as [o|] eqn:Ho; [|done].
    destruct Hu as [<-|[]]. by exists el, (String ch ref), o.
  - intros (el & ref & o & Hel & Hattr & Hne & Ho & ->).
    exists el. split; [by apply list_elem_of_In|].
    rewrite Hattr. destruct ref as [|ch ref]; [done|]. cbn. rewrite Ho. by left.
Qed.

Lemma resolved_refs_length (newURL : URLConstructor) (keep : string -> bool)
    (attr baseURL : string) (els : list Dom.node) :
  (length (resolved_refs newURL keep attr baseURL els) ≤ length els)%nat.
Proof.
  unfold resolved_refs. induction els as [|el els IH]; [done|].
  cbn. rewrite length_app.
  destruct (Dom.getAttribute el attr) as [ref|]; [|cbn; lia].
  destruct (keep ref); [|cbn; lia].
  destruct (newURL ref (Some baseURL)); cbn; lia.
Qed.

Lemma resolved_refs_unresolvable (newURL : URLConstructor) (keep : string -> bool)
    (attr baseURL : string) (els : list Dom.node) :
  (∀ ref, newURL ref (Some baseURL) = None) →
  resolved_refs newURL keep attr baseURL els = [].
Proof.
  intros Hbase. unfold resolved_refs. induction els as [|el els IH]; [done|].
  cbn. rewrite IH. destruct (Dom.getAttribute el attr) as [ref|]; [|done].
  destruct (keep ref); [|done]. by rewrite Hbase.
Qed.

(** X1: the title and the first paragraph come back trimmed: they neither
    start nor end with white space, so trimming them again changes nothing. *)
Theorem extracted_text_is_trimmed
    (JSDOM : string -> option Dom.document) (html : string) :
  Js.trim (getH1FromHTML JSDOM html) = getH1FromHTML JSDOM html ∧
  Js.trim_start (getH1FromHTML JSDOM html) = getH1FromHTML JSDOM html ∧
  Js.trim_end (getH1FromHTML JSDOM html) = getH1FromHTML JSDOM html ∧
  Js.trim (getFirstParagraphFromHTML JSDOM html) = getFirstParagraphFromHTML JSDOM html ∧
  Js.trim_start (getFirstParagraphFromHTML JSDOM html) =
    getFirstParagraphFromHTML JSDOM html ∧
  Js.trim_end (getFirstParagraphFromHTML JSDOM html) =
    getFirstParagraphFromHTML JSDOM html.
Proof.
  unfold getH1FromHTML, getFirstParagraphFromHTML.
  destruct (JSDOM html) as [doc|]; [|done].
  cbv zeta.
  repeat split; first [apply trim_idem | apply trim_fixed].
Qed.

(** X2: [getH1FromHTML] reads the first [h1] in document order: on a document
    whose elements, in tree order, are [pre], then an [h1], then [post], with
    no [h1] in [pre], it returns the trimmed text of that [h1] whatever
    [post] holds; on a document without any [h1] it returns the empty
    string. *)
Theorem getH1FromHTML_first_in_document_order
    (JSDOM : string -> option Dom.document) (html : string) (doc : Dom.document) :
  JSDOM html = Some doc →
  (∀ pre e post,
     Dom.descendants doc = pre ++ e :: post →
     Dom.has_name "h1" e = true →
     Forall (fun x => Dom.has_name "h1" x = false) pre →
     getH1FromHTML JSDOM html = Js.trim (Dom.textContent e)) ∧
  (Forall (fun x => Dom.has_name "h1" x = false) (Dom.descendants doc) →
   getH1FromHTML JSDOM html = "").
Proof.
  intros Hdoc. unfold getH1FromHTML, Dom.querySelector, Dom.querySelectorAll.
  rewrite Hdoc. split.
  - intros pre e post -> He Hpre. by rewrite head_filter_first.
  - intros Hnone. by rewrite filter_none.
Qed.

Lemma getH1FromHTML_first_in_document_order_witness :
  let doc :=
    [Dom.Element "html" []
       [Dom.Element "body" []
          [Dom.Element "div" [] [Dom.Element "h1" [] [Dom.Text " Deep "]];
           Dom.Element "h1" [] [Dom.Text "Later"]]]] in
  getH1FromHTML (fun _ => Some doc) "page" = "Deep".
Proof.
  intros doc.
  refine (proj1 (getH1FromHTML_first_in_document_order (fun _ => Some doc) "page"
                   doc eq_refl)
            [Dom.Element "html" []
               [Dom.Element "body" []
                  [Dom.Element "div" [] [Dom.Element "h1" [] [Dom.Text " Deep "]];
                   Dom.Element "h1" [] [Dom.Text "Later"]]];
             Dom.Element "body" []
               [Dom.Element "div" [] [Dom.Element "h1" [] [Dom.Text " Deep "]];
                Dom.Element "h1" [] [Dom.Text "Later"]];
             Dom.Element "div" [] [Dom.Element "h1" [] [Dom.Text " Deep "]]]
            (Dom.Element "h1" [] [Dom.Text " Deep "])
            [Dom.Element "h1" [] [Dom.Text "Later"]] eq_refl eq_refl _).
  repeat constructor.
Defined.

Lemma node_nested_ind (P : Dom.node -> Prop) :
  (∀ l attrs cs, Forall P cs → P (Dom.Element l attrs cs)) →
  (∀ d, P (Dom.Text d)) →
  (∀ d, P (Dom.Comment d)) →
  ∀ n, P n.
Proof.
  intros Hel Htext Hcomment. fix IH 1. intros [l attrs cs|d|d]; [|done..].
  apply Hel. induction cs as [|c cs IHcs]; constructor; [apply IH|exact IHcs].
Qed.

(** The descendants of a descendant are descendants. *)
Lemma elements_trans (n e x : Dom.node) :
  e ∈ Dom.elements n → x ∈ Dom.descendants (Dom.childNodes_of e) →
  x ∈ Dom.elements n.
Proof.
  revert e x. induction n as [l attrs cs IH|d|d] using node_nested_ind;
    intros e x He Hx; [|by apply elem_of_nil in He..].
  cbn in He |- *. apply elem_of_cons in He as [->|He]; [by right|].
  right. apply list_elem_of_In, in_flat_map in He as (c & Hc & He).
  apply list_elem_of_In, in_flat_map. exists c. split; [done|].
  apply list_elem_of_In. rewrite Forall_forall in IH.
  apply (IH c (proj2 (list_elem_of_In _ _) Hc) e x); [|done].
  by apply list_elem_of_In.
Qed.

Lemma descendants_trans (doc : Dom.document) (e x : Dom.node) :
  e ∈ Dom.descendants doc → x ∈ Dom.descendants (Dom.childNodes_of e) →
  x ∈ Dom.descendants doc.
Proof.
  unfold Dom.descendants at 1 3. intros He Hx.
  apply list_elem_of_In, in_flat_map in He as (c & Hc & He).
  apply list_elem_of_In, in_flat_map. exists c. split; [done|].
  apply list_elem_of_In. eapply elements_trans; [|done]. by apply list_elem_of_In.
Qed.

Lemma head_elem_of {A : Type} (l : list A) (x : A) : head l = Some x → x ∈ l.
Proof. destruct l; [done|]. intros [= ->]. by left. Qed.

(** X3: a page on which the parser fails, or which has no [h1], [p], [a] or
    [img] element, gives the record with the page URL as passed in, empty
    strings and empty lists. *)
Theorem extractPageData_missing_elements
    (newURL : URLConstructor) (JSDOM : string -> option Dom.document)
    (html pageURL : string) :
  (JSDOM html = None ∨
   ∃ doc, JSDOM html = Some doc ∧
          Forall (fun e => Dom.has_name "h1" e = false ∧ Dom.has_name "p" e = false ∧
                           Dom.has_name "a" e = false ∧ Dom.has_name "img" e = false)
            (Dom.descendants doc)) →
  extractPageData newURL JSDOM html pageURL =
  {| url := pageURL; h1 := ""; first_paragraph := "";
     outgoing_links := []; image_urls := [] |}.
Proof.
  unfold extractPageData.
  intros [Hnone | (doc & Hdoc & Hall)].
  - unfold getH1FromHTML, getFirstParagraphFromHTML, getURLsFromHTML,
      getImagesFromHTML. by rewrite Hnone.
  - assert (∀ name, name = "h1" ∨ name = "p" ∨ name = "a" ∨ name = "img" →
                    Dom.querySelectorAll name doc = []) as Hq.
    { intros name Hname. apply filter_none.
      eapply Forall_impl; [exact Hall|]. cbn.
      intros e (H1 & H2 & H3 & H4). by destruct Hname as [->|[->|[->| ->]]]. }
    rewrite getURLsFromHTML_unfold, getImagesFromHTML_unfold.
    unfold getH1FromHTML, getFirstParagraphFromHTML, Dom.querySelector.
    rewrite Hdoc, (Hq "h1"), (Hq "p"), (Hq "a"), (Hq "img") by auto.
    destruct (head (Dom.querySelectorAll "main" doc)) as [m|] eqn:Hm; [|done].
    cbn [mbind option_bind].
    destruct (head (Dom.querySelectorAll "p" (Dom.childNodes_of m))) as [e|] eqn:He;
      [|done].
    exfalso.
    apply head_elem_of, elem_of_querySelectorAll in Hm as [Hm _].
    apply head_elem_of, elem_of_querySelectorAll in He as [He Hp].
    pose proof (descendants_trans doc m e Hm He) as Hin.
    rewrite Forall_forall in Hall. destruct (Hall e Hin) as (_ & Hp' & _).
    congruence.
Qed.

Lemma extractPageData_missing_elements_witness :
  let doc :=
    [Dom.Element "html" []
       [Dom.Element "head" [] [];
        Dom.Element "body" []
          [Dom.Element "main" [] [Dom.Text "No h1, p, links, or images"]]]] in
  extractPageData Whatwg.construct (fun _ => Some doc) "page" "https://blog.boot.dev" =
  {| url := "https://blog.boot.dev"; h1 := ""; first_paragraph := "";
     outgoing_links := []; image_urls := [] |}.
Proof.
  intros doc.
  apply (extractPageData_missing_elements Whatwg.construct (fun _ => Some doc)).
  right. exists doc. split; [reflexivity|]. repeat constructor.
Defined.

(** X4: the extracted links are exactly the resolved, non-empty [href]
    values of the document's [a] elements, and the extracted images the
    resolved, non-empty [src] values of its [img] elements: nothing else is
    ever returned, nothing that resolves is left out, and there are at most
    as many results as there are such elements. *)
Theorem extracted_references_sound_and_complete
    (newURL : URLConstructor) (JSDOM : string -> option Dom.document)
    (html baseURL u : string) :
  (u ∈ getURLsFromHTML newURL JSDOM html baseURL ↔
   ∃ doc el ref o,
     JSDOM html = Some doc ∧ el ∈ Dom.descendants doc ∧
     Dom.has_name "a" el = true ∧ Dom.getAttribute el "href" = Some ref ∧
     ref ≠ "" ∧ newURL ref (Some baseURL) = Some o ∧ u = href o) ∧
  (u ∈ getImagesFromHTML newURL JSDOM html baseURL ↔
   ∃ doc el ref o,
     JSDOM html = Some doc ∧ el ∈ Dom.descendants doc ∧
     Dom.has_name "img" el = true ∧ Dom.getAttribute el "src" = Some ref ∧
     ref ≠ "" ∧ newURL ref (Some baseURL) = Some o ∧ u = href o) ∧
  (length (getURLsFromHTML newURL JSDOM html baseURL) ≤
   length (from_option (Dom.querySelectorAll "a") [] (JSDOM html)))%nat ∧
  (length (getImagesFromHTML newURL JSDOM html baseURL) ≤
   length (from_option (Dom.querySelectorAll "img") [] (JSDOM html)))%nat.
Proof.
  rewrite getURLsFromHTML_unfold, getImagesFromHTML_unfold.
  destruct (JSDOM html) as [doc|].
  - split; [|split; [|split; apply resolved_refs_length]];
      rewrite elem_of_resolved_refs; split.
    + intros (el & ref & o & [Hel Hname]%elem_of_querySelectorAll & H).
      exists doc, el, ref, o. naive_solver.
    + intros (doc' & el & ref & o & [= <-] & Hel & Hname & H).
      exists el, ref, o. split; [by apply elem_of_querySelectorAll|done].
    + intros (el & ref & o & [Hel Hname]%elem_of_querySelectorAll & H).
      exists doc, el, ref, o. naive_solver.
    + intros (doc' & el & ref & o & [= <-] & Hel & Hname & H).
      exists el, ref, o. split; [by apply elem_of_querySelectorAll|done].
  - cbn. split; [|split; [|done]]; split;
      first [by intros ?%elem_of_nil | by intros (? & ? & ? & ? & ? & _)].
Qed.

(** X6: when nothing resolves against the base (as with a base URL that does
    not parse), every reference is skipped: the links and the images are
    empty, nothing is thrown, and title and first paragraph are still
    extracted. *)
Theorem extraction_with_unusable_base
    (newURL : URLConstructor) (JSDOM : string -> option Dom.document)
    (html baseURL : string) :
  (∀ ref, newURL ref (Some baseURL) = None) →
  getURLsFromHTML newURL JSDOM html baseURL = [] ∧
  getImagesFromHTML newURL JSDOM html baseURL = [] ∧
  extractPageData newURL JSDOM html baseURL =
  {| url := baseURL;
     h1 := getH1FromHTML JSDOM html;
     first_paragraph := getFirstParagraphFromHTML JSDOM html;
     outgoing_links := [];
     image_urls := [] |}.
Proof.
  intros Hbase. unfold extractPageData.
  rewrite getURLsFromHTML_unfold, getImagesFromHTML_unfold.
  destruct (JSDOM html) as [doc|]; [|done].
  by rewrite !resolved_refs_unresolvable.
Qed.

Lemma extraction_with_unusable_base_witness :
  let doc :=
    [Dom.Element "h1" [] [Dom.Text "Title"];
     Dom.Element "a" [("href", "https://blog.boot.dev/path")] [Dom.Text "abs"];
     Dom.Element "img" [("src", "/logo.png")] []] in
  extractPageData Whatwg.construct (fun _ => Some doc) "page" "blog.boot.dev" =
  {| url := "blog.boot.dev"; h1 := "Title"; first_paragraph := "";
     outgoing_links := []; image_urls := [] |}.
Proof.
  intros doc.
  refine (proj2 (proj2 (extraction_with_unusable_base Whatwg.construct
                          (fun _ => Some doc) "page" "blog.boot.dev" _))).
  intros ref. reflexivity.
Defined.

(** ** Further properties of the fetcher and the crawl engine *)

Lemma prefix_app (needle post : string) : String.prefix needle (needle +:+ post) = true.
Proof.
  induction needle as [|c needle IH]; [by destruct post|].
  change (String c needle +:+ post) with (String c (needle +:+ post)).
  cbn [String.prefix]. by destruct (ascii_dec c c).
Qed.

Lemma prefix_split (needle hay : string) :
  String.prefix needle hay = true → ∃ post, hay = needle +:+ post.
Proof.
  revert hay. induction needle as [|c needle IH]; intros hay H.
  - by exists hay.
  - destruct hay as [|d hay]; [done|]. cbn in H.
    destruct (ascii_dec c d) as [->|]; [|done].
    destruct (IH hay H) as [post ->]. by exists post.
Qed.

(** [includes] is the substring test. *)
Lemma includes_substring (hay needle : string) :
  Js.includes hay needle = true ↔ ∃ pre post, hay = pre +:+ needle +:+ post.
Proof.
  split.
  - induction hay as [|c hay IH]; intros H; cbn [Js.includes] in H;
      apply orb_true_iff in H as [H|H]; [| done | |].
    + apply prefix_split in H as [post ->]. by exists "", post.
    + apply prefix_split in H as [post ->]. by exists "", post.
    + destruct (IH H) as (pre & post & ->). by exists (String c pre), post.
  - intros (pre & post & ->). induction pre as [|c pre IH].
    + change ("" +:+ needle +:+ post) with (needle +:+ post).
      pose proof (prefix_app needle post) as Hp.
      destruct (needle +:+ post); cbn [Js.includes]; by rewrite Hp.
    + change (String c pre +:+ needle +:+ post)
        with (String c (pre +:+ needle +:+ post)).
      cbn [Js.includes]. rewrite IH. apply orb_true_r.
Qed.

(** X7: [getHTML] sends exactly one request, whatever comes back, and hands
    over the body exactly when the network answers with a status of at most
    399 and a content-type that has [text/html] somewhere inside it, as in
    [text/html; charset=utf-8]; the match is a plain substring test. *)
Theorem getHTML_accepts_html_content_types
    (fetch : list string -> string -> FetchResult) (log : list string)
    (u text : string) :
  snd (getHTML fetch log u) = log ++ [u] ∧
  (fst (getHTML fetch log u) = Return (Some text) ↔
   ∃ res pre post,
     fetch log u = Responded res ∧ status res ≤ 399 ∧
     content_type res = Some (pre +:+ "text/html" +:+ post) ∧ text = body res).
Proof.
  split; [apply getHTML_requests|].
  destruct (fetch log u) as [m|res] eqn:Hf.
  - unfold getHTML. rewrite Hf. cbn. split; [done|]. by intros (? & ? & ? & ? & _).
  - rewrite (getHTML_responded fetch log u res Hf). split.
    + case_decide; [done|].
      destruct (content_type res) as [ct|] eqn:Hct; [|done].
      destruct (Js.includes ct "text/html") eqn:Hi; [|done].
      intros [= <-]. apply includes_substring in Hi as (pre & post & ->).
      exists res, pre, post. repeat split; [lia|done].
    + intros (res' & pre & post & [= <-] & Hs & Hct & ->).
      case_decide; [lia|]. rewrite Hct.
      by rewrite (proj2 (includes_substring _ _)) by eauto.
Qed.

Section CrawlFacts.

Variable newURL : URLConstructor.
Variable JSDOM : string -> option Dom.document.
Variable fetch : list string -> string -> FetchResult.
Variable baseURL : string.

Local Abbreviation crawlPage_ := (crawlPage newURL JSDOM fetch).

Lemma crawlPage_unparseable (fuel : nat) (u : string) (st : CrawlState) :
  newURL u None = None ∨ newURL baseURL None = None →
  crawlPage_ fuel baseURL u st = Thrown st.
Proof.
  intros [H|H]; destruct fuel; cbn [crawlPage]; rewrite ?H; try done;
    by destruct (newURL u None).
Qed.

Lemma for_of_never (R : outcome -> Prop)
    (f : string -> CrawlState -> outcome) (xs : list string) :
  (∀ st, R (Done st)) →
  (∀ x st, x ∈ xs → R (f x st)) →
  ∀ st, R (for_of f xs st).
Proof.
  intros Hdone. induction xs as [|x xs IH]; intros Hf st; [apply Hdone|].
  cbn. pose proof (Hf x st ltac:(left)) as Hx.
  destruct (f x st) as [st'| |]; [|done..].
  apply IH. intros y st'' Hy. apply Hf. by right.
Qed.

Lemma crawlPage_not_thrown :
  is_Some (newURL baseURL None) →
  (∀ html link, link ∈ getURLsFromHTML newURL JSDOM html baseURL →
                is_Some (newURL link None)) →
  ∀ fuel u st, is_Some (newURL u None) →
               ∀ st', crawlPage_ fuel baseURL u st ≠ Thrown st'.
Proof.
  intros [b Hb] Hlinks.
  assert (∀ fuel,
            (∀ x st, is_Some (newURL x None) →
                     ∀ st', match fuel with
                            | O => fun _ _ => OutOfFuel
                            | S n => crawlPage_ n baseURL
                            end x st ≠ Thrown st') →
            ∀ u st, is_Some (newURL u None) →
                    ∀ st', crawlPage_ fuel baseURL u st ≠ Thrown st') as Hstep.
  { intros fuel IH u st [c Hc] st'.
    destruct (decide (hostname c = hostname b)) as [Hh|Hh].
    - destruct (normalizeURL_is_Some newURL u c Hc) as [key Hk].
      rewrite (crawlPage_in_scope newURL JSDOM fetch baseURL fuel u key st)
        by by exists c, b.
      destruct (seen (pages st) key); [done|].
      destruct (fst (getHTML fetch (requests st) u)) as [[result|]|]; [|done..].
      destruct (Js.truthy result); [|done].
      apply (for_of_never (fun o => o ≠ Thrown st')); [done|].
      intros x st'' Hx. apply IH. by eapply Hlinks.
    - by rewrite (crawlPage_out_of_scope newURL JSDOM fetch baseURL fuel u c b st). }
  induction fuel as [|fuel IH]; apply Hstep; [done|exact IH].
Qed.

(** Where a call stands with respect to the state [st0] it started from:
    no key lost, no count lowered, the request log extended at its end. *)
Local Abbreviation grows_from st0 :=
  (fun st' : CrawlState =>
     (∀ k n, pages st0 !! k = Some n → ∃ n', pages st' !! k = Some n' ∧ n ≤ n') ∧
     requests st0 `prefix_of` requests st').

Lemma crawlPage_grows (fuel : nat) (u : string) (st : CrawlState) :
  holds_after (grows_from st) (crawlPage_ fuel baseURL u st).
Proof.
  apply crawlPage_preserves.
  - intros st' v key _ Hs [Hcount Hlog]. split; [|done].
    intros k n Hk. destruct (Hcount k n Hk) as (n' & Hn' & Hle). cbn.
    apply seen_lookup in Hs as (m & Hm & Hpos).
    rewrite (bump_lookup _ _ _ Hm).
    destruct (decide (key = k)) as [<-|Hne].
    + rewrite lookup_insert_eq. exists (js_incr m). split; [done|].
      rewrite Hm in Hn'. injection Hn' as <-. pose proof (js_incr_ge m). lia.
    + rewrite lookup_insert_ne by done. eauto.
  - intros st' v key _ Hs [Hcount Hlog]. split.
    + intros k n Hk. destruct (Hcount k n Hk) as (n' & Hn' & Hle). cbn.
      destruct (set_prop_cases (pages st') key 1) as [-> | [-> _]]; [|eauto].
      destruct (decide (key = k)) as [<-|Hne].
      * rewrite lookup_insert_eq. exists 1. split; [done|].
        unfold seen in Hs. rewrite Hn' in Hs. apply Z.ltb_ge in Hs. lia.
      * rewrite lookup_insert_ne by done. eauto.
    + cbn. by apply prefix_app_r.
  - split; [|done]. intros k n Hk. exists n. split; [done|lia].
Qed.

Lemma crawlPage_requests_in_scope (fuel : nat) (u : string) (st : CrawlState) :
  Forall (fun v => ∃ key, in_scope newURL baseURL v key) (requests st) →
  holds_after
    (fun st' => Forall (fun v => ∃ key, in_scope newURL baseURL v key) (requests st'))
    (crawlPage_ fuel baseURL u st).
Proof.
  apply (crawlPage_preserves newURL JSDOM fetch baseURL
           (fun st' => Forall (fun v => ∃ key, in_scope newURL baseURL v key)
                         (requests st'))).
  - intros st' v key _ _ H. exact H.
  - intros st' v key Hin _ H. cbn. apply Forall_app. split; [done|].
    apply Forall_singleton. by exists key.
Qed.

End CrawlFacts.

Lemma count_occ_filter_eq_ord (l : list string) (k : string) :
  k ≠ "__proto__" →
  count_occ string_dec
    (List.filter (fun x => negb (String.eqb x "__proto__")) l) k =
  count_occ string_dec l k.
Proof.
  intros Hk. induction l as [|x l IH]; [done|]. cbn [List.filter].
  destruct (String.eqb_spec x "__proto__") as [->|Hx]; cbn [negb].
  - rewrite (count_occ_cons_neq string_dec l (x := "__proto__") (y := k))
      by congruence.
    exact IH.
  - destruct (string_dec x k) as [->|Hne].
    + rewrite !count_occ_cons_eq by done. by rewrite IH.
    + rewrite !count_occ_cons_neq by done. exact IH.
Qed.

Section CrawlSummary.

Variable newURL : URLConstructor.
Variable JSDOM : string -> option Dom.document.
Variable fetch : list string -> string -> FetchResult.
Variable baseURL : string.

Local Abbreviation crawlPage_ := (crawlPage newURL JSDOM fetch).

Lemma crawlPage_keeps_head (fuel : nat) (u : string) (st : CrawlState) :
  head (requests st) = Some baseURL →
  holds_after (fun st' => head (requests st') = Some baseURL)
    (crawlPage_ fuel baseURL u st).
Proof.
  apply (crawlPage_preserves newURL JSDOM fetch baseURL
           (fun st' => head (requests st') = Some baseURL)).
  - intros st' v k _ _ Hhead. done.
  - intros st' v k _ _ Hhead. cbn. by destruct (requests st').
Qed.

(** A crawl that returns has parsed the base URL and requested it first. *)
Lemma crawl_starts_at_base (fuel : nat) (st' : CrawlState) :
  crawl newURL JSDOM fetch fuel baseURL = Done st' →
  is_Some (newURL baseURL None) ∧ head (requests st') = Some baseURL.
Proof.
  unfold crawl. intros Hrun.
  destruct (newURL baseURL None) as [b|] eqn:Hb;
    [|by rewrite (crawlPage_unparseable newURL JSDOM fetch baseURL) in Hrun by auto].
  split; [done|].
  destruct (normalizeURL_is_Some newURL baseURL b Hb) as [key Hk].
  assert (in_scope newURL baseURL baseURL key) as Hin by (by exists b, b).
  rewrite (crawlPage_in_scope newURL JSDOM fetch baseURL fuel baseURL key _ Hin)
    in Hrun.
  cbn [pages requests] in Hrun.
  replace (seen ∅ key) with false in Hrun by done.
  destruct (fst (getHTML fetch [] baseURL)) as [[result|]|];
    [|by injection Hrun as <-..].
  destruct (Js.truthy result); [|by injection Hrun as <-].
  assert (holds_after
            (fun st' => head (requests st') = Some baseURL)
            (for_of
               match fuel with
               | O => fun _ _ => OutOfFuel
               | S n => crawlPage_ n baseURL
               end
               (getURLsFromHTML newURL JSDOM result baseURL)
               (mkState (set_prop ∅ key 1) ([] ++ [baseURL])))) as Hloop.
  { apply for_of_preserves; [|done].
    intros x st _ H. destruct fuel; [done|]. by apply crawlPage_keeps_head. }
  by rewrite Hrun in Hloop.
Qed.

(** The requests of a crawl for keys other than [__proto__] are as many as
    the keys of its record. *)
Lemma one_request_per_key_size (st : CrawlState) :
  one_request_per_key newURL st →
  length (List.filter (fun k => negb (String.eqb k "__proto__"))
            (request_keys newURL st)) = size (pages st).
Proof.
  intros (Hreq & Hdom).
  set (L := List.filter (fun k => negb (String.eqb k "__proto__"))
              (request_keys newURL st)).
  assert (∀ k, k ∈ L ↔ k ∈ dom (pages st)) as Hmem.
  { intros k. unfold L. rewrite list_elem_of_In, filter_In, <- list_elem_of_In.
    split.
    - intros [Hk Hord]. destruct (String.eqb_spec k "__proto__"); [done|].
      apply Hreq, seen_lookup in Hk as (m & Hm & _); [|done].
      apply elem_of_dom. eauto.
    - intros Hk. destruct (Hdom k Hk) as (Hord & _ & Hcount). split.
      + apply list_elem_of_In, (count_occ_In string_dec). lia.
      + by destruct (String.eqb_spec k "__proto__"). }
  assert (NoDup L) as Hnd.
  { apply NoDup_ListNoDup, (NoDup_count_occ string_dec). intros k.
    destruct (decide (k ∈ L)) as [Hk|Hk].
    - apply Hmem, Hdom in Hk as (Hord & _ & Hcount).
      unfold L. rewrite count_occ_filter_eq_ord by done. lia.
    - rewrite list_elem_of_In in Hk.
      rewrite (proj1 (count_occ_not_In string_dec L k) Hk). lia. }
  rewrite <- (size_list_to_set (C := gset string)) by done.
  rewrite <- size_dom. f_equal. apply set_eq. intros k.
  rewrite elem_of_list_to_set. apply Hmem.
Qed.

End CrawlSummary.

(** X8: a URL that does not parse, be it [currentURL] or [baseURL], makes
    [crawlPage] reject at once, the record and the request log untouched;
    the recursive call is not guarded, so such a link in a loop over links
    ends the loop there and the links after it are not visited. *)
Theorem crawlPage_rejects_unparseable_url
    (newURL : URLConstructor) (JSDOM : string -> option Dom.document)
    (fetch : list string -> string -> FetchResult)
    (baseURL currentURL : string) :
  newURL currentURL None = None ∨ newURL baseURL None = None →
  ∀ fuel st,
    crawlPage newURL JSDOM fetch fuel baseURL currentURL st = Thrown st ∧
    ∀ rest,
      for_of (crawlPage newURL JSDOM fetch fuel baseURL) (currentURL :: rest) st =
      Thrown st.
Proof.
  intros H fuel st.
  pose proof (crawlPage_unparseable newURL JSDOM fetch baseURL fuel currentURL st H)
    as Hrun.
  split; [done|]. intros rest. cbn. by rewrite Hrun.
Qed.

Lemma crawlPage_rejects_unparseable_url_witness :
  Site.crawlPage 3 "https://h.co" "/a" (mkState {[ "h.co" := 1 ]} ["https://h.co"]) =
  Thrown (mkState {[ "h.co" := 1 ]} ["https://h.co"]).
Proof.
  refine (proj1 (crawlPage_rejects_unparseable_url Whatwg.construct Site.JSDOM
                   Site.fetch "https://h.co" "/a" _ 3%nat _)).
  left. reflexivity.
Defined.

(** X9: apart from that, a crawl never rejects: when the base URL parses and
    every link that [getURLsFromHTML] can return parses, a call on a URL
    that parses does not end in a rejection, whatever the network does
    (failed requests, error statuses and other content types included). *)
Theorem crawlPage_never_rejects
    (newURL : URLConstructor) (JSDOM : string -> option Dom.document)
    (fetch : list string -> string -> FetchResult)
    (baseURL currentURL : string) :
  is_Some (newURL baseURL None) →
  is_Some (newURL currentURL None) →
  (∀ html link, link ∈ getURLsFromHTML newURL JSDOM html baseURL →
                is_Some (newURL link None)) →
  ∀ fuel st st',
    crawlPage newURL JSDOM fetch fuel baseURL currentURL st ≠ Thrown st'.
Proof.
  intros Hb Hc Hlinks fuel st st'.
  by apply crawlPage_not_thrown.
Qed.

Lemma site_links (html link : string) :
  link ∈ getURLsFromHTML Whatwg.construct Site.JSDOM html "https://h.co" →
  link ∈ ["https://h.co/a"; "https://other.co/x"; "https://h.co/";
          "https://h.co/a/"; "https://h.co/missing"].
Proof.
  unfold getURLsFromHTML, Site.JSDOM.
  destruct (String.eqb html Site.home_html);
    [|destruct (String.eqb html Site.a_html)]; vm_compute; intros H.
  - inversion H as [|? ? ? H']; subst; [by left|].
    inversion H' as [|? ? ? H'']; subst; [right; by left|]. inversion H''.
  - inversion H as [|? ? ? H1]; subst; [do 2 right; by left|].
    inversion H1 as [|? ? ? H2]; subst; [do 3 right; by left|].
    inversion H2 as [|? ? ? H3]; subst; [do 4 right; by left|]. inversion H3.
  - inversion H.
Qed.

Lemma crawlPage_never_rejects_witness :
  Site.crawlPage 3 "https://h.co" "https://h.co/a" (mkState ∅ []) ≠
  Thrown (mkState ∅ []).
Proof.
  refine (crawlPage_never_rejects Whatwg.construct Site.JSDOM Site.fetch
            "https://h.co" "https://h.co/a" _ _ _ 3%nat (mkState ∅ []) (mkState ∅ [])).
  - by eexists.
  - by eexists.
  - intros html link Hl. apply site_links in Hl.
    repeat (apply elem_of_cons in Hl as [-> | Hl]); try by eexists.
    by apply elem_of_nil in Hl.
Defined.

(** X10: a call only adds to the state it is given: every key of the record
    is still there afterwards with a count that is not lower, and the
    request log afterwards starts with the log before. *)
Theorem crawlPage_only_grows
    (newURL : URLConstructor) (JSDOM : string -> option Dom.document)
    (fetch : list string -> string -> FetchResult)
    (baseURL currentURL : string) (fuel : nat) (st : CrawlState) :
  holds_after
    (fun st' =>
       (∀ k n, pages st !! k = Some n → ∃ n', pages st' !! k = Some n' ∧ n ≤ n') ∧
       requests st `prefix_of` requests st')
    (crawlPage newURL JSDOM fetch fuel baseURL currentURL st).
Proof. apply crawlPage_grows. Qed.

(** X11: a crawl requests only URLs on the base host: if the URLs already in
    the request log are in scope, so are all of them after a call, and
    [crawlPage(baseURL)] on its own sends no request to another host. *)
Theorem crawl_requests_stay_on_host
    (newURL : URLConstructor) (JSDOM : string -> option Dom.document)
    (fetch : list string -> string -> FetchResult)
    (baseURL : string) (fuel : nat) :
  (∀ u st,
     Forall (fun v => ∃ key, in_scope newURL baseURL v key) (requests st) →
     holds_after
       (fun st' => Forall (fun v => ∃ key, in_scope newURL baseURL v key)
                     (requests st'))
       (crawlPage newURL JSDOM fetch fuel baseURL u st)) ∧
  holds_after
    (fun st' =>
       ∀ v, v ∈ requests st' →
            ∃ c b, newURL v None = Some c ∧ newURL baseURL None = Some b ∧
                   hostname c = hostname b)
    (crawl newURL JSDOM fetch fuel baseURL).
Proof.
  split; [intros u st; apply crawlPage_requests_in_scope|].
  pose proof (crawlPage_requests_in_scope newURL JSDOM fetch baseURL fuel
                baseURL (mkState ∅ []) (Forall_nil_2 _)) as H.
  unfold crawl.
  destruct (crawlPage newURL JSDOM fetch fuel baseURL baseURL (mkState ∅ []));
    cbn in *; [| |done];
    intros v Hv; rewrite Forall_forall in H;
    destruct (H v Hv) as (key & c & b & Hc & Hb & Hh & _); eauto.
Qed.

(** X12: when [crawlPage(baseURL)] returns, the base URL parses, it was the
    first request, and its key is marked unless that key is [__proto__];
    however the crawl ends, every count in its record is at least 1, and
    the requests it sent for keys other than [__proto__] are as many as the
    record has keys. *)
Theorem crawl_result_summary
    (newURL : URLConstructor) (JSDOM : string -> option Dom.document)
    (fetch : list string -> string -> FetchResult)
    (baseURL : string) (fuel : nat) :
  (∀ st', crawl newURL JSDOM fetch fuel baseURL = Done st' →
          is_Some (newURL baseURL None) ∧
          head (requests st') = Some baseURL ∧
          ∀ key, normalizeURL newURL baseURL = Some key → key ≠ "__proto__" →
                 seen (pages st') key = true) ∧
  holds_after
    (fun st' =>
       (∀ k n, pages st' !! k = Some n → 1 ≤ n) ∧
       length (List.filter (fun k => negb (String.eqb k "__proto__"))
                 (request_keys newURL st')) = size (pages st'))
    (crawl newURL JSDOM fetch fuel baseURL).
Proof.
  split.
  - intros st' Hrun.
    destruct (crawl_starts_at_base newURL JSDOM fetch baseURL fuel st' Hrun)
      as [[b Hb] Hhead].
    split; [by eexists|]. split; [done|]. intros key Hkey Hord.
    assert (in_scope newURL baseURL baseURL key) as Hin by (by exists b, b).
    pose proof (crawlPage_marks_key newURL JSDOM fetch baseURL fuel baseURL key
                  (mkState ∅ []) Hin Hord) as Hm.
    unfold crawl in Hrun. by rewrite Hrun in Hm.
  - pose proof (crawlPage_one_request_per_key newURL JSDOM fetch baseURL fuel
                  baseURL (mkState ∅ []) (one_request_per_key_start newURL)) as H.
    unfold crawl.
    destruct (crawlPage newURL JSDOM fetch fuel baseURL baseURL (mkState ∅ []))
      as [st'|st'|]; cbn in *; [| |done];
      (split; [|by apply one_request_per_key_size]);
      intros k n Hk;
      (assert (k ∈ dom (pages st')) as Hd by (apply elem_of_dom; eauto));
      destruct H as [_ Hdom];
      destruct (Hdom k Hd) as (_ & (m & Hm & Hpos)%seen_lookup & _);
      rewrite Hk in Hm; injection Hm as <-; lia.
Qed.

(** X14: pages are told apart by key, not by spelling: once a call on an
    in-scope URL has returned, a call on any in-scope URL with the same key
    (another scheme, a final slash, capitals in the host) sends no request
    and only raises the count of that key, by one while the count is below
    2^53. The key [__proto__] is excepted. *)
Theorem crawlPage_same_key_not_fetched_again
    (newURL : URLConstructor) (JSDOM : string -> option Dom.document)
    (fetch : list string -> string -> FetchResult)
    (baseURL u1 u2 key : string) (fuel1 fuel2 : nat) (st st1 : CrawlState) :
  in_scope newURL baseURL u1 key →
  in_scope newURL baseURL u2 key →
  key ≠ "__proto__" →
  crawlPage newURL JSDOM fetch fuel1 baseURL u1 st = Done st1 →
  ∃ n, pages st1 !! key = Some n ∧ 1 ≤ n ∧
       crawlPage newURL JSDOM fetch fuel2 baseURL u2 st1 =
       Done (mkState (<[key := js_incr n]> (pages st1)) (requests st1)) ∧
       (n < 2 ^ 53 → js_incr n = n + 1).
Proof.
  intros H1 H2 Hord Hrun.
  pose proof (crawlPage_marks_key newURL JSDOM fetch baseURL fuel1 u1 key st H1 Hord)
    as Hseen.
  rewrite Hrun in Hseen. cbn in Hseen.
  apply seen_lookup in Hseen as Hn. destruct Hn as (n & Hn & Hpos).
  exists n. split; [done|]. split; [lia|]. split; [|apply js_incr_small].
  rewrite (crawlPage_in_scope newURL JSDOM fetch baseURL fuel2 u2 key st1 H2), Hseen.
  by rewrite (bump_lookup _ _ _ Hn).
Qed.

Lemma crawlPage_same_key_not_fetched_again_witness :
  ∃ n, pages (mkState {[ "h.co/missing" := 1 ]} ["https://h.co/missing"])
         !! "h.co/missing" = Some n ∧
       1 ≤ n ∧
       Site.crawlPage 0 "https://h.co" "http://H.co/missing/"
         (mkState {[ "h.co/missing" := 1 ]} ["https://h.co/missing"]) =
       Done (mkState (<[ "h.co/missing" := js_incr n ]> {[ "h.co/missing" := 1 ]})
                     ["https://h.co/missing"]) ∧
       (n < 2 ^ 53 → js_incr n = n + 1).
Proof.
  refine (crawlPage_same_key_not_fetched_again Whatwg.construct Site.JSDOM
            Site.fetch "https://h.co" "https://h.co/missing" "http://H.co/missing/"
            "h.co/missing" 0 0 (mkState ∅ [])
            (mkState {[ "h.co/missing" := 1 ]} ["https://h.co/missing"]) _ _ _ _).
  - by eexists _, _.
  - by eexists _, _.
  - discriminate.
  - vm_compute. reflexivity.
Defined.

(** X17: on a first visit (a URL on the base host whose key has no positive
    count) with a key other than [__proto__], the key is set to 1 and one
    request is sent. If the fetcher then returns [undefined] or throws,
    [crawlPage] returns the record with that count of 1 and makes no
    recursive call (none is allowed with fuel 0); if it returns a page, the
    descent into its links starts from the record that already holds the
    1; and in every case the key is marked in the state the call ends in. *)
Theorem first_visit_marks_ordinary_key
    (newURL : URLConstructor) (JSDOM : string -> option Dom.document)
    (fetch : list string -> string -> FetchResult)
    (baseURL currentURL key : string) (c b : URL) (st : CrawlState) :
  newURL currentURL None = Some c →
  newURL baseURL None = Some b →
  hostname c = hostname b →
  normalizeURL newURL currentURL = Some key →
  seen (pages st) key = false →
  key ≠ "__proto__" →
  let marked := mkState (<[key := 1]> (pages st)) (requests st ++ [currentURL]) in
  pages marked !! key = Some 1 ∧
  (∀ fuel,
     fst (getHTML fetch (requests st) currentURL) = Return None ∨
     (∃ m, fst (getHTML fetch (requests st) currentURL) = Throw m) →
     crawlPage newURL JSDOM fetch fuel baseURL currentURL st = Done marked) ∧
  (∀ fuel html,
     fst (getHTML fetch (requests st) currentURL) = Return (Some html) →
     crawlPage newURL JSDOM fetch (S fuel) baseURL currentURL st =
     if Js.truthy html
     then for_of (crawlPage newURL JSDOM fetch fuel baseURL)
            (getURLsFromHTML newURL JSDOM html baseURL) marked
     else Done marked) ∧
  (∀ fuel,
     holds_after (fun st' => seen (pages st') key = true)
       (crawlPage newURL JSDOM fetch fuel baseURL currentURL st)).
Proof.
  intros Hc Hb Hh Hkey Hseen Hord marked.
  assert (in_scope newURL baseURL currentURL key) as Hin by by exists c, b.
  unfold marked. rewrite <- (set_prop_ordinary (pages st) key 1 Hord).
  split; [rewrite set_prop_ordinary by done; apply lookup_insert_eq|].
  split; [|split].
  - intros fuel. by apply crawlPage_first_visit.
  - intros fuel. by apply crawlPage_first_visit.
  - intros fuel. by apply crawlPage_marks_key.
Qed.

Lemma first_visit_marks_ordinary_key_witness :
  Site.crawlPage 0 "https://h.co" "https://h.co/missing"
    (mkState {[ "h.co" := 1 ]} ["https://h.co"]) =
  Done (mkState (<[ "h.co/missing" := 1 ]> {[ "h.co" := 1 ]})
          (["https://h.co"] ++ ["https://h.co/missing"])) ∧
  crawlPage Whatwg.construct Site.JSDOM Site.offline 0 "https://h.co" "https://h.co"
    (mkState ∅ []) =
  Done (mkState (<[ "h.co" := 1 ]> ∅) ([] ++ ["https://h.co"])).
Proof.
  split.
  - refine (proj1 (proj2 (first_visit_marks_ordinary_key Whatwg.construct Site.JSDOM
                     Site.fetch "https://h.co" "https://h.co/missing" "h.co/missing"
                     _ _ (mkState {[ "h.co" := 1 ]} ["https://h.co"])
                     eq_refl eq_refl eq_refl eq_refl eq_refl _)) 0%nat _).
    + discriminate.
    + left. reflexivity.
  - refine (proj1 (proj2 (first_visit_marks_ordinary_key Whatwg.construct Site.JSDOM
                     Site.offline "https://h.co" "https://h.co" "h.co"
                     _ _ (mkState ∅ [])
                     eq_refl eq_refl eq_refl eq_refl eq_refl _)) 0%nat _).
    + discriminate.
    + right. eexists. reflexivity.
Defined.

(** X18: let [K] be a finite set of keys without [__proto__] that holds the
    key of [baseURL] and the key of every in-scope link of every page
    fetched from an in-scope URL with a key in [K]. With every fetch
    answering, [crawlPage(baseURL)] ends (by returning, or by rejecting on a
    URL that does not parse) as soon as recursive calls may nest [size K]
    deep: each call that recurses has first marked a further key of [K].
    No key is requested twice, and at most [size K] requests are sent. *)
Theorem crawl_terminates_ordinary_keys
    (newURL : URLConstructor) (JSDOM : string -> option Dom.document)
    (fetch : list string -> string -> FetchResult)
    (baseURL : string) (K : gset string) :
  "__proto__" ∉ K →
  closed_under_links newURL JSDOM fetch baseURL K →
  (∀ key, in_scope newURL baseURL baseURL key → key ∈ K) →
  ∀ fuel, (size K ≤ fuel)%nat →
    ∃ st', (crawl newURL JSDOM fetch fuel baseURL = Done st' ∨
            crawl newURL JSDOM fetch fuel baseURL = Thrown st') ∧
           NoDup (request_keys newURL st') ∧
           (length (requests st') ≤ size K)%nat.
Proof.
  intros Hord Hclosed Hbase fuel Hfuel.
  pose proof (crawlPage_fuel_enough newURL JSDOM fetch baseURL K Hord Hclosed fuel
                baseURL (mkState ∅ []) Hbase) as Hend.
  pose proof (crawlPage_one_request_per_key newURL JSDOM fetch baseURL fuel
                baseURL (mkState ∅ []) (one_request_per_key_start newURL)) as Hone.
  pose proof (crawlPage_requests_within newURL JSDOM fetch baseURL K Hclosed fuel
                baseURL (mkState ∅ []) Hbase (Forall_nil_2 _)) as Hin.
  unfold crawl.
  assert (size (unseen K (pages (mkState ∅ []))) ≤ fuel)%nat as Hsz.
  { pose proof (unseen_size K (pages (mkState ∅ []))). lia. }
  specialize (Hend Hsz).
  assert (∀ st', one_request_per_key newURL st' →
                 Forall (fun v => ∃ k, normalizeURL newURL v = Some k ∧ k ∈ K)
                   (requests st') →
                 NoDup (request_keys newURL st')) as Hnd.
  { intros st' (Hreq & Hdom) Hall.
    apply NoDup_ListNoDup, (NoDup_count_occ string_dec). intros k.
    destruct (decide (k ∈ request_keys newURL st')) as [Hk|Hk].
    - assert (k ∈ K) as HK.
      { unfold request_keys in Hk. apply list_elem_of_omap in Hk as (v & Hv & Hkv).
        rewrite Forall_forall in Hall.
        destruct (Hall v Hv) as (k' & Hk' & HK). congruence. }
      assert (k ≠ "__proto__") as Hk' by (intros ->; done).
      apply Hreq, seen_lookup in Hk as (n & Hn & _); [|done].
      assert (k ∈ dom (pages st')) as Hd by (apply elem_of_dom; eauto).
      destruct (Hdom k Hd) as (_ & _ & ->). lia.
    - rewrite list_elem_of_In in Hk.
      rewrite (proj1 (count_occ_not_In string_dec _ k) Hk). lia. }
  destruct (crawlPage newURL JSDOM fetch fuel baseURL baseURL (mkState ∅ []))
    as [st'|st'|]; [| |done]; exists st'; cbn in Hone, Hin;
    (split; [auto|]); (split; [by apply Hnd|]);
    apply (request_keys_bound newURL K); auto.
Qed.

Lemma site_closed_under_links :
  closed_under_links Whatwg.construct Site.JSDOM Site.fetch "https://h.co" Site.keys.
Proof.
  intros log u key html _ _ Hget link key' Hlink (c & b & Hc & Hb & Hh & Hkey).
  apply site_links in Hlink.
  repeat (apply elem_of_cons in Hlink as [-> | Hlink]);
    [| | | | |by apply elem_of_nil in Hlink];
    first [ vm_compute in Hkey; injection Hkey as <-; unfold Site.keys; set_solver
          | vm_compute in Hc, Hb; injection Hc as <-; injection Hb as <-;
            cbn in Hh; discriminate ].
Qed.

Lemma crawl_terminates_ordinary_keys_witness :
  ∃ st', (Site.crawl 3 "https://h.co" = Done st' ∨
          Site.crawl 3 "https://h.co" = Thrown st') ∧
         NoDup (request_keys Whatwg.construct st') ∧
         (length (requests st') ≤ size Site.keys)%nat.
Proof.
  refine (crawl_terminates_ordinary_keys Whatwg.construct Site.JSDOM Site.fetch
            "https://h.co" Site.keys _ site_closed_under_links _ 3%nat _).
  - unfold Site.keys. set_solver.
  - intros key (c & b & _ & _ & _ & Hkey).
    vm_compute in Hkey. injection Hkey as <-. unfold Site.keys. set_solver.
  - vm_compute. lia.
Defined.

(** X15: [normalizeURL] merges no more than a final slash: two URLs with the
    same key have the same host followed by pathname, up to one slash at the
    end of one of them. *)
Theorem normalizeURL_same_key
    (ctor : URLConstructor) (u1 u2 : string) (o1 o2 : URL) :
  ctor u1 None = Some o1 →
  ctor u2 None = Some o2 →
  normalizeURL ctor u1 = normalizeURL ctor u2 →
  host o1 +:+ pathname o1 = host o2 +:+ pathname o2 ∨
  host o1 +:+ pathname o1 = (host o2 +:+ pathname o2) +:+ "/" ∨
  host o2 +:+ pathname o2 = (host o1 +:+ pathname o1) +:+ "/".
Proof.
  intros H1 H2. rewrite !normalizeURL_unfold, H1, H2. cbn. intros [= Heq].
  destruct (strip_trailing_slash_cases (host o1 +:+ pathname o1)) as [E1|E1],
           (strip_trailing_slash_cases (host o2 +:+ pathname o2)) as [E2|E2].
  - left. congruence.
  - right; right. rewrite E2 at 1. by rewrite <- Heq, E1.
  - right; left. rewrite E1 at 1. by rewrite Heq, E2.
  - left. rewrite E1, E2. by rewrite Heq.
Qed.

Lemma normalizeURL_same_key_witness :
  normalizeURL Whatwg.construct "https://h.co/p" =
    normalizeURL Whatwg.construct "http://H.CO/p/" ∧
  ("h.co/p" = "h.co/p/" ∨ "h.co/p" = "h.co/p/" +:+ "/" ∨
   "h.co/p/" = "h.co/p" +:+ "/").
Proof.
  split; [reflexivity|].
  exact (normalizeURL_same_key Whatwg.construct "https://h.co/p" "http://H.CO/p/"
           _ _ eq_refl eq_refl eq_refl).
Defined.

(** X16: the first paragraph is never taken from anything but a [p]: on a
    parsed document the result is the trimmed text of some [p] element of
    the document, or the document has no [p] at all and the result is
    empty. *)
Theorem getFirstParagraphFromHTML_is_a_paragraph
    (JSDOM : string -> option Dom.document) (html : string) (doc : Dom.document) :
  JSDOM html = Some doc →
  (∃ e, e ∈ Dom.descendants doc ∧ Dom.has_name "p" e = true ∧
        getFirstParagraphFromHTML JSDOM html = Js.trim (Dom.textContent e)) ∨
  (Forall (fun e => Dom.has_name "p" e = false) (Dom.descendants doc) ∧
   getFirstParagraphFromHTML JSDOM html = "").
Proof.
  intros Hdoc. unfold getFirstParagraphFromHTML, Dom.querySelector. rewrite Hdoc.
  destruct (head (Dom.querySelectorAll "main" doc)) as [m|] eqn:Hm;
    cbn [mbind option_bind].
  - destruct (head (Dom.querySelectorAll "p" (Dom.childNodes_of m))) as [e|] eqn:He.
    + left. exists e.
      apply head_elem_of, elem_of_querySelectorAll in Hm as [Hm _].
      apply head_elem_of, elem_of_querySelectorAll in He as [He Hp].
      split; [by eapply descendants_trans|done].
    + destruct (head (Dom.querySelectorAll "p" doc)) as [e|] eqn:Hp.
      * left. exists e.
        apply head_elem_of, elem_of_querySelectorAll in Hp as [Hp Hn]. done.
      * right. split; [|done]. apply Forall_forall. intros x Hx.
        destruct (Dom.has_name "p" x) eqn:Hn; [|done].
        assert (x ∈ Dom.querySelectorAll "p" doc) as Hin
          by by apply elem_of_querySelectorAll.
        destruct (Dom.querySelectorAll "p" doc); [by apply elem_of_nil in Hin|done].
  - destruct (head (Dom.querySelectorAll "p" doc)) as [e|] eqn:Hp.
    + left. exists e.
      apply head_elem_of, elem_of_querySelectorAll in Hp as [Hp Hn]. done.
    + right. split; [|done]. apply Forall_forall. intros e He.
      destruct (Dom.has_name "p" e) eqn:Hn; [|done].
      assert (e ∈ Dom.querySelectorAll "p" doc) as Hin
        by by apply elem_of_querySelectorAll.
      destruct (Dom.querySelectorAll "p" doc); [by apply elem_of_nil in Hin|done].
Qed.

Lemma getFirstParagraphFromHTML_is_a_paragraph_witness :
  let doc :=
    [Dom.Element "body" []
       [Dom.Element "p" [] [Dom.Text "Outside."];
        Dom.Element "main" [] [Dom.Element "h1" [] [Dom.Text "Title"]]]] in
  (∃ e, e ∈ Dom.descendants doc ∧ Dom.has_name "p" e = true ∧
        getFirstParagraphFromHTML (fun _ => Some doc) "page" =
        Js.trim (Dom.textContent e)) ∨
  (Forall (fun e => Dom.has_name "p" e = false) (Dom.descendants doc) ∧
   getFirstParagraphFromHTML (fun _ => Some doc) "page" = "").
Proof.
  intros doc.
  exact (getFirstParagraphFromHTML_is_a_paragraph (fun _ => Some doc) "page" doc
           eq_refl).
Defined.
